(** * E-commerce API (main.py): a shallow embedding and its verified properties

    The development follows [main.py]:

    - Python [float] is IEEE 754 binary64, modelled by the Standard Library's
      [spec_float] with [prec = 53] and [emax = 1024]; Python [int] is [Z];
      Python [str] is [string].
    - The two MongoDB collections, the driver's id counter, the clock and the
      outcome of each store call make up the [World]; handlers are
      computations in a state and exception monad over it.
    - Dictionaries sent back to the client are [json] values whose objects keep
      the insertion order of their keys, as Python dictionaries do.
    - The framework around the endpoint functions is [serve]: it answers 422,
      without calling the function, when a query parameter is out of its
      declared range, and it sends the value a function returns only if that
      value can be written as JSON. *)

From Stdlib Require Import ZArith NArith List String Ascii Bool Lia QArith.
From Stdlib Require Import SpecFloat DecimalString DecimalZ Sorted.
Import ListNotations.

Set Warnings "-register-all".

Local Open Scope string_scope.
Local Open Scope list_scope.
Local Open Scope Z_scope.

(** ** Python floats *)

Definition float : Type := spec_float.

Module Float.

Definition prec : Z := 53.
Definition emax : Z := 1024.

Definition zero : float := S754_zero false.

Definition add : float -> float -> float := SFadd prec emax.
Definition mul : float -> float -> float := SFmul prec emax.

(** [x <= y] on floats; false as soon as one side is NaN. *)
Definition leb : float -> float -> bool := SFleb.

Definition is_finite (x : float) : bool :=
  match x with S754_zero _ | S754_finite _ _ _ => true | _ => false end.

(** The integer [z] rounded to the nearest float, ties to even. *)
Definition round_int (z : Z) : float := binary_normalize prec emax z 0 false.

(** [float(z)] for a Python int: CPython's [PyLong_AsDouble] rounds to
    nearest-even and raises [OverflowError] when the result does not fit,
    here [None]. *)
Definition of_int (z : Z) : option float :=
  match round_int z with
  | S754_infinity _ => None
  | f => Some f
  end.

(** The float written [n/d] in decimal notation, for small [n] and [d]:
    [ratio 1 10] is the literal [0.1]. *)
Definition ratio (n d : Z) : float := SFdiv prec emax (round_int n) (round_int d).

(** The rational number a finite float stands for. *)
Definition exact (x : float) : option Q :=
  match x with
  | S754_zero _ => Some 0%Q
  | S754_finite s m e => Some (inject_Z (cond_Zopp s (Zpos m)) * Qpower 2 e)%Q
  | _ => None
  end.

End Float.

(** ** Strings *)

Definition is_upper (c : ascii) : bool :=
  let n := nat_of_ascii c in (65 <=? n)%nat && (n <=? 90)%nat.

(** ASCII case folding of one character. *)
Definition lower_char (c : ascii) : ascii :=
  if is_upper c then ascii_of_nat (nat_of_ascii c + 32) else c.

Definition lower (s : string) : list ascii := map lower_char (list_ascii_of_string s).

(** Python's [str] on an int: decimal digits, with a leading [-] when
    negative. *)
Definition str_int (z : Z) : string := NilZero.string_of_int (Z.to_int z).

(** Python's [int] on such a string. *)
Definition int_str (s : string) : option Z := option_map Z.of_int (NilZero.int_of_string s).

(** ** Object identifiers (bson.ObjectId) *)

(** The [_id] of a stored document is a 12-byte value, held as the number
    its bytes denote. *)
Definition oid := N.

(** The value [ObjectId(s)] holds: the bytes read from the string, each a
    number below 256. *)
Definition object_id := list N.

Definition hex_value (c : ascii) : option N :=
  let n := N_of_ascii c in
  if (48 <=? n)%N && (n <=? 57)%N then Some (n - 48)%N
  else if (97 <=? n)%N && (n <=? 102)%N then Some (n - 87)%N
  else if (65 <=? n)%N && (n <=? 70)%N then Some (n - 55)%N
  else None.

(** ASCII white space: tab, line feed, vertical tab, form feed, carriage
    return and space. *)
Definition is_space (c : ascii) : bool :=
  let n := N_of_ascii c in ((9 <=? n)%N && (n <=? 13)%N) || (n =? 32)%N.

(** [bytes.fromhex(s)]: the bytes written as pairs of hexadecimal digits, the
    white space before a pair or at the end being skipped; [None] stands for
    [ValueError], raised for any other character, for white space inside a
    pair and for a last digit left alone. *)
Fixpoint fromhex (s : string) : option (list N) :=
  match s with
  | EmptyString => Some []
  | String c s' =>
      if is_space c then fromhex s'
      else
        match hex_value c, s' with
        | Some top, String c' s'' =>
            match hex_value c', fromhex s'' with
            | Some bot, Some bytes => Some ((16 * top + bot)%N :: bytes)
            | _, _ => None
            end
        | _, _ => None
        end
  end.

(** [ObjectId(s)] for a string [s]: a string of 24 characters that
    [bytes.fromhex] reads gives the bytes read, 12 of them unless the string
    holds white space; [None] stands for the [InvalidId] exception. *)
Definition ObjectId (s : string) : option object_id :=
  if (String.length s =? 24)%nat then fromhex s else None.

(** The number a byte string denotes, first byte first. *)
Definition bytes_value (bytes : list N) : N :=
  fold_left (fun acc b => (256 * acc + b)%N) bytes 0%N.

(** The stored [_id] is the identifier [x]: [x] has 12 bytes and they denote
    it. *)
Definition is_id (x : object_id) (id : oid) : bool :=
  (List.length x =? 12)%nat && (bytes_value x =? id)%N.

Definition hex_char (d : N) : ascii :=
  if (d <? 10)%N then ascii_of_N (48 + d) else ascii_of_N (87 + d).

Fixpoint hex_string (digits : nat) (n : N) (acc : string) : string :=
  match digits with
  | O => acc
  | S k => hex_string k (n / 16)%N (String (hex_char (n mod 16)%N) acc)
  end.

(** [str(oid)]: 24 lower-case hexadecimal digits. *)
Definition str_oid (id : oid) : string := hex_string 24 id "".

(** ** JSON values: what a handler returns *)

Inductive json : Type :=
| JNull
| JInt (z : Z)
| JFloat (f : float)
| JStr (s : string)
| JList (l : list json)
| JDict (fields : list (string * json)).

Definition keys (j : json) : list string :=
  match j with JDict fields => map fst fields | _ => [] end.

Fixpoint lookup (k : string) (fields : list (string * json)) : option json :=
  match fields with
  | [] => None
  | (k', v) :: rest => if String.eqb k k' then Some v else lookup k rest
  end.

(** [j[k]] on a dictionary. *)
Definition get (k : string) (j : json) : option json :=
  match j with JDict fields => lookup k fields | _ => None end.

(** ** Request models (pydantic) and stored documents *)

Record Size := { size : string; quantity : Z }.

Record ProductCreate := { pc_name : string; pc_price : float; pc_sizes : list Size }.

Record OrderItem := { productId : string; qty : Z }.

Record OrderCreate := { userId : string; items : list OrderItem }.

(** A document of [db.products]: [ProductCreate.model_dump()] plus the [_id]
    the driver adds. *)
Record Product := {
  product_id : oid;
  name : string;
  price : float;
  sizes : list Size
}.

(** An entry of an order's [items]:
    [{"productDetails": {"name": ..., "id": ...}, "qty": ...}]. *)
Record OrderLine := { pd_name : string; pd_id : string; line_qty : Z }.

(** A document of [db.orders]. *)
Record Order := {
  order_id : oid;
  order_userId : string;
  order_items : list OrderLine;
  total : float;
  createdAt : Z
}.

(** The order document before the driver gives it an [_id]. *)
Record OrderDoc := {
  doc_userId : string;
  doc_items : list OrderLine;
  doc_total : float;
  doc_createdAt : Z
}.

(** ** The world: store, clock and store outcomes *)

(** The filter document built by [list_products]: the [name] entry is
    [{"$regex": pattern, "$options": "i"}], the ["sizes.size"] entry a
    string. *)
Record QueryFilter := { qf_name : option string; qf_size : option string }.

(** A call to the store, as the handlers issue them. *)
Inductive call : Type :=
| ProductsInsertOne (d : ProductCreate)
| ProductsCountDocuments (q : QueryFilter)
| ProductsFind (q : QueryFilter) (skip limit : Z)
| ProductsFindOne (id : object_id)
| OrdersInsertOne (d : OrderDoc)
| OrdersCountDocuments (user : string)
| OrdersFind (user : string) (skip limit : Z).

(** [faults] schedules the outcome of the store calls to come: the head is
    consumed by the next call, which raises when it is [true], for whatever
    makes the driver or the server raise. An exhausted schedule means no
    further failure. A call that raises leaves the collections as they
    were. [calls] records every call issued, oldest first. *)
Record World := {
  products_collection : list Product;
  orders_collection : list Order;
  next_oid : oid;
  clock : Z;
  faults : list bool;
  calls : list call
}.

(** ** Exceptions and the handler monad *)

Inductive exn : Type :=
| HTTPException (status_code : Z) (detail : string)
| Error (message : string).

Definition M (A : Type) : Type := World -> (exn + A) * World.

Definition ret {A} (a : A) : M A := fun w => (inr a, w).

Definition raise {A} (e : exn) : M A := fun w => (inl e, w).

Definition bind {A B} (m : M A) (k : A -> M B) : M B :=
  fun w =>
    match m w with
    | (inl e, w') => (inl e, w')
    | (inr a, w') => k a w'
    end.

(** [try: m except e: handler e]. *)
Definition try_except {A} (m : M A) (handler : exn -> M A) : M A :=
  fun w =>
    match m w with
    | (inl e, w') => handler e w'
    | (inr a, w') => (inr a, w')
    end.

Notation "x <- m ;; k" := (bind m (fun x => k))
  (at level 61, m at next level, right associativity).
Notation "' pat <- m ;; k" := (bind m (fun x => match x with pat => k end))
  (at level 61, pat pattern, m at next level, right associativity).

(** The world once a call is issued: the call is recorded and one scheduled
    outcome consumed. *)
Definition issued (c : call) (w : World) : World :=
  {| products_collection := products_collection w;
     orders_collection := orders_collection w;
     next_oid := next_oid w;
     clock := clock w;
     faults := tl (faults w);
     calls := calls w ++ [c] |}.

(** The next store call raises. *)
Definition fails (w : World) : bool := hd false (faults w).

(** Issue a store call: either raise or run [k] on the store. *)
Definition store_call {A} (c : call) (k : M A) : M A :=
  fun w =>
    if fails w then (inl (Error "store failure"), issued c w) else k (issued c w).

Fixpoint find_by_id (id : object_id) (ps : list Product) : option Product :=
  match ps with
  | [] => None
  | p :: rest => if is_id id (product_id p) then Some p else find_by_id id rest
  end.

(** [products_collection.find_one({"_id": id})]. *)
Definition products_find_one (id : object_id) : M (option Product) :=
  store_call (ProductsFindOne id)
    (fun w => (inr (find_by_id id (products_collection w)), w)).

(** The stored form of an order document. *)
Definition order_of_doc (id : oid) (d : OrderDoc) : Order :=
  {| order_id := id; order_userId := doc_userId d; order_items := doc_items d;
     total := doc_total d; createdAt := doc_createdAt d |}.

(** [orders_collection.insert_one(doc)]: the driver gives the document a
    fresh [_id]; the result is that [inserted_id]. *)
Definition orders_insert_one (d : OrderDoc) : M oid :=
  store_call (OrdersInsertOne d)
    (fun w =>
       let id := next_oid w in
       (inr id,
        {| products_collection := products_collection w;
           orders_collection := orders_collection w ++ [order_of_doc id d];
           next_oid := N.succ id;
           clock := clock w;
           faults := faults w;
           calls := calls w |})).

(** The stored form of a product document. *)
Definition product_of_doc (id : oid) (d : ProductCreate) : Product :=
  {| product_id := id; name := pc_name d; price := pc_price d; sizes := pc_sizes d |}.

(** [products_collection.insert_one(doc)]. *)
Definition products_insert_one (d : ProductCreate) : M oid :=
  store_call (ProductsInsertOne d)
    (fun w =>
       let id := next_oid w in
       (inr id,
        {| products_collection := products_collection w ++ [product_of_doc id d];
           orders_collection := orders_collection w;
           next_oid := N.succ id;
           clock := clock w;
           faults := faults w;
           calls := calls w |})).

(** [datetime.now(timezone.utc)]. *)
Definition now : M Z := fun w => (inr (clock w), w).

(** [x * n] for a float [x] and an int [n]: the int is converted first. *)
Definition float_mul_int (x : float) (n : Z) : M float :=
  match Float.of_int n with
  | Some f => ret (Float.mul x f)
  | None => raise (Error "int too large to convert to float")
  end.

(** ** GET / *)

Definition root : M json := ret (JDict [("message", JStr "E-commerce API is running")]).

(** ** POST /orders *)

(** One turn of [for item in order.items], on the loop's two variables. *)
Definition order_loop_body (item : OrderItem) (st : float * list OrderLine)
  : M (float * list OrderLine) :=
  let '(total_price, order_items) := st in
  product_id <-
    match ObjectId (productId item) with
    | Some id => ret id
    | None => raise (HTTPException 400 ("Invalid product ID: " ++ productId item)%string)
    end ;;
  product <- products_find_one product_id ;;
  match product with
  | None => raise (HTTPException 404 ("Product not found: " ++ productId item)%string)
  | Some product =>
      item_total <- float_mul_int (price product) (qty item) ;;
      let total_price := Float.add total_price item_total in
      let order_item :=
        {| pd_name := name product; pd_id := productId item; line_qty := qty item |} in
      ret (total_price, order_items ++ [order_item])
  end.

Fixpoint order_loop (items : list OrderItem) (st : float * list OrderLine)
  : M (float * list OrderLine) :=
  match items with
  | [] => ret st
  | item :: rest => st' <- order_loop_body item st ;; order_loop rest st'
  end.

(** The body of [create_order], exceptions included. *)
Definition create_order (order : OrderCreate) : M json :=
  try_except
    ('(total_price, order_items) <- order_loop (items order) (Float.zero, []) ;;
     created <- now ;;
     let order_doc :=
       {| doc_userId := userId order; doc_items := order_items;
          doc_total := total_price; doc_createdAt := created |} in
     inserted_id <- orders_insert_one order_doc ;;
     ret (JDict [("id", JStr (str_oid inserted_id))]))
    (fun e =>
       match e with
       | HTTPException _ _ => raise e
       | Error message => raise (HTTPException 500 message)
       end).

(** ** Responses *)

Record Response := { status : Z; body : json }.

(** The framework can write the value as JSON: it holds no float that is
    infinite or NaN ([json.dumps] is called with [allow_nan=False]). *)
Fixpoint renders (j : json) : bool :=
  match j with
  | JFloat f => Float.is_finite f
  | JList l => forallb renders l
  | JDict fields => forallb (fun field => let '(_, v) := field in renders v) fields
  | _ => true
  end.

(** The query parameter [name], declared with [ge=bound], when its value is
    below the bound. *)
Definition query_ge (name : string) (value bound : Z) : list string :=
  if value <? bound then [name] else [].

(** The framework's own 500 page, sent for an exception no handler takes. *)
Definition internal_server_error : Response :=
  {| status := 500; body := JStr "Internal Server Error" |}.

(** The framework's 422 response for query parameters out of the declared
    range; of each error entry the location alone is modelled. *)
Definition unprocessable (errors : list string) : Response :=
  {| status := 422;
     body := JDict [("detail",
                     JList (map (fun name => JDict [("loc", JList [JStr "query"; JStr name])])
                              errors))] |}.

(** What the framework does with a request to an endpoint declared with
    [status_code]. Parameters out of their declared range are answered 422
    and the function is not called. Otherwise the function runs: the value it
    returns is written as JSON and sent with [status_code], and when it
    cannot be written, which happens outside the function and its
    [try]/[except], the answer is the 500 page; an [HTTPException] is sent as
    [{"detail": ...}] with its status; any other exception gives the 500
    page. *)
Definition serve (status_code : Z) (errors : list string) (handler : M json)
  : World -> Response * World :=
  fun w =>
    match errors with
    | _ :: _ => (unprocessable errors, w)
    | [] =>
        match handler w with
        | (inr j, w') =>
            if renders j then ({| status := status_code; body := j |}, w')
            else (internal_server_error, w')
        | (inl (HTTPException code detail), w') =>
            ({| status := code; body := JDict [("detail", JStr detail)] |}, w')
        | (inl (Error _), w') => (internal_server_error, w')
        end
    end.

(** [POST /orders]. *)
Definition post_orders (order : OrderCreate) : World -> Response * World :=
  serve 201 [] (create_order order).

(** ** Regular expressions: the fragment of the store's engine modelled here *)

(** The store evaluates [{"$regex": pattern, "$options": "i"}] with a
    Perl-compatible engine, searching the subject for a match anywhere in it.
    The fragment modelled is: patterns made of printable ASCII characters
    that are no metacharacter, each standing for itself, and of [.], which
    stands for any character but a newline, searched in subjects made of
    ASCII characters. *)
Inductive atom : Type :=
| Lit (c : ascii)
| Dot.

Definition metachars : list ascii :=
  list_ascii_of_string "\^$.[]|()?*+{}".

Definition is_metachar (c : ascii) : bool := existsb (Ascii.eqb c) metachars.

Definition is_printable (c : ascii) : bool :=
  let n := nat_of_ascii c in (32 <=? n)%nat && (n <=? 126)%nat.

Definition is_literal (c : ascii) : bool := is_printable c && negb (is_metachar c).

Fixpoint parse_pattern (s : string) : option (list atom) :=
  match s with
  | EmptyString => Some []
  | String c s' =>
      let a :=
        if Ascii.eqb c "." then Some Dot
        else if is_literal c then Some (Lit c)
        else None in
      match a, parse_pattern s' with
      | Some a, Some r => Some (a :: r)
      | _, _ => None
      end
  end.

Definition newline : ascii := ascii_of_nat 10.

(** One pattern atom against one subject character, letter case ignored. *)
Definition atom_matches (a : atom) (c : ascii) : bool :=
  match a with
  | Lit x => Ascii.eqb (lower_char x) (lower_char c)
  | Dot => negb (Ascii.eqb c newline)
  end.

(** The pattern matches at the start of the subject. *)
Fixpoint match_here (r : list atom) (s : list ascii) : bool :=
  match r, s with
  | [], _ => true
  | _ :: _, [] => false
  | a :: r', c :: s' => atom_matches a c && match_here r' s'
  end.

(** The pattern matches somewhere in the subject. *)
Fixpoint search (r : list atom) (s : list ascii) : bool :=
  match_here r s ||
  match s with
  | [] => false
  | _ :: s' => search r s'
  end.

(** The subject holds ASCII characters only. *)
Definition is_ascii_string (s : string) : bool :=
  forallb (fun c => (nat_of_ascii c <? 128)%nat) (list_ascii_of_string s).

(** ** Sorting by [_id] *)

Section Sort.
Context {A : Type} (key : A -> N).

Fixpoint insert_sorted (x : A) (l : list A) : list A :=
  match l with
  | [] => [x]
  | y :: l' => if (key x <=? key y)%N then x :: l else y :: insert_sorted x l'
  end.

(** [.sort("_id", 1)]: ascending, stable. *)
Definition sort_by_id (l : list A) : list A := fold_right insert_sorted [] l.
End Sort.

(** [.skip(offset).limit(limit)] for [offset >= 0] and [limit >= 1], the
    ranges the query parameters are declared with. *)
Definition page_of {A} (offset limit : Z) (l : list A) : list A :=
  firstn (Z.to_nat limit) (skipn (Z.to_nat offset) l).

(** ** Helper functions *)

Definition product_helper (product : Product) : json :=
  JDict [("id", JStr (str_oid (product_id product)));
         ("name", JStr (name product));
         ("price", JFloat (price product))].

Definition order_line_json (l : OrderLine) : json :=
  JDict [("productDetails", JDict [("name", JStr (pd_name l)); ("id", JStr (pd_id l))]);
         ("qty", JInt (line_qty l))].

Definition order_helper (order : Order) : json :=
  JDict [("id", JStr (str_oid (order_id order)));
         ("items", JList (map order_line_json (order_items order)));
         ("total", JFloat (total order))].

(** [str(e)] for a caught exception. *)
Definition str_exn (e : exn) : string :=
  match e with
  | HTTPException code detail => (str_int code ++ ": " ++ detail)%string
  | Error message => message
  end.

(** [if s:] for an optional string: [None] and the empty string are false. *)
Definition truthy (s : option string) : option string :=
  match s with
  | Some (String _ _ as v) => Some v
  | _ => None
  end.

(** The ["sizes.size"] entry of a filter: some element of [sizes] has that
    [size]. *)
Definition has_size (s : string) (p : Product) : bool :=
  existsb (fun e => String.eqb (size e) s) (sizes p).

(** ** GET /products, POST /products, GET /orders/{user_id} *)

Section Products.

(** The store's engine outside the fragment above, compiled with option
    [i]: the predicate on subjects, or [None] when the engine rejects the
    pattern. *)
Variable pcre_i : string -> option (string -> bool).

(** The engine's verdict on a subject, for a pattern it accepts. *)
Definition engine_search (pattern subject : string) : bool :=
  match pcre_i pattern with
  | Some m => m subject
  | None => false
  end.

(** A pattern of the fragment is accepted; on an ASCII subject it is
    searched as above, and on a subject with other characters, where the
    engine reads characters of several bytes and folds their case, the
    verdict is the engine's. *)
Definition regex_i (pattern : string) : option (string -> bool) :=
  match parse_pattern pattern with
  | Some r =>
      Some (fun subject =>
              if is_ascii_string subject
              then search r (list_ascii_of_string subject)
              else engine_search pattern subject)
  | None => pcre_i pattern
  end.

(** The documents a filter selects, as a predicate; [None] when the store
    rejects the filter. An absent entry constrains nothing. *)
Definition compile_filter (q : QueryFilter) : option (Product -> bool) :=
  let by_size p :=
    match qf_size q with Some s => has_size s p | None => true end in
  match qf_name q with
  | None => Some by_size
  | Some pattern =>
      match regex_i pattern with
      | Some m => Some (fun p => m (name p) && by_size p)
      | None => None
      end
  end.

(** [products_collection.count_documents(query_filter)]. *)
Definition products_count_documents (q : QueryFilter) : M Z :=
  store_call (ProductsCountDocuments q)
    (fun w =>
       match compile_filter q with
       | Some f => (inr (Z.of_nat (List.length (filter f (products_collection w)))), w)
       | None => (inl (Error "Regular expression is invalid"), w)
       end).

(** [list(products_collection.find(query_filter).sort("_id", 1).skip(offset).limit(limit))]. *)
Definition products_find (q : QueryFilter) (offset limit : Z) : M (list Product) :=
  store_call (ProductsFind q offset limit)
    (fun w =>
       match compile_filter q with
       | Some f =>
           (inr (page_of offset limit
                   (sort_by_id product_id (filter f (products_collection w)))), w)
       | None => (inl (Error "Regular expression is invalid"), w)
       end).

(** The filter [list_products] builds from its two optional parameters. *)
Definition build_query_filter (name size : option string) : QueryFilter :=
  {| qf_name := truthy name; qf_size := truthy size |}.

(** The body of [list_products]. The framework calls it for [limit >= 1] and
    [offset >= 0] only, the ranges its parameters are declared with: see
    [get_products]. *)
Definition list_products (name size : option string) (limit offset : Z) : M json :=
  try_except
    (let query_filter := build_query_filter name size in
     total_count <- products_count_documents query_filter ;;
     products <- products_find query_filter offset limit ;;
     let product_list := map product_helper products in
     let next_offset :=
       if offset + limit <? total_count then Some (offset + limit) else None in
     let prev_offset :=
       if 0 <? offset then Some (Z.max 0 (offset - limit)) else None in
     let pagination :=
       JDict [("next", match next_offset with Some n => JStr (str_int n) | None => JNull end);
              ("limit", JInt limit);
              ("previous", match prev_offset with Some n => JStr (str_int n) | None => JNull end)] in
     ret (JDict [("data", JList product_list); ("page", pagination)]))
    (fun e => raise (HTTPException 500 (str_exn e))).

(** [GET /products]: [list_products] behind its declared parameters,
    [limit] with [ge=1] and [offset] with [ge=0]. *)
Definition get_products (name size : option string) (limit offset : Z)
  : World -> Response * World :=
  serve 200 (query_ge "limit" limit 1 ++ query_ge "offset" offset 0)
    (list_products name size limit offset).

End Products.

Definition create_product (product : ProductCreate) : M json :=
  try_except
    (let product_dict := product in
     inserted_id <- products_insert_one product_dict ;;
     ret (JDict [("id", JStr (str_oid inserted_id))]))
    (fun e => raise (HTTPException 500 (str_exn e))).

(** [POST /products]. *)
Definition post_products (product : ProductCreate) : World -> Response * World :=
  serve 201 [] (create_product product).

(** [orders_collection.count_documents({"userId": user_id})]. *)
Definition orders_count_documents (user_id : string) : M Z :=
  store_call (OrdersCountDocuments user_id)
    (fun w =>
       (inr (Z.of_nat (List.length (filter (fun o => String.eqb (order_userId o) user_id)
                                 (orders_collection w)))), w)).

(** [list(orders_collection.find({"userId": user_id}).sort("_id", 1).skip(offset).limit(limit))]. *)
Definition orders_find (user_id : string) (offset limit : Z) : M (list Order) :=
  store_call (OrdersFind user_id offset limit)
    (fun w =>
       (inr (page_of offset limit
               (sort_by_id order_id
                  (filter (fun o => String.eqb (order_userId o) user_id)
                     (orders_collection w)))), w)).

(** The body of [get_user_orders]. The framework calls it for [limit >= 1]
    and [offset >= 0] only: see [get_orders]. *)
Definition get_user_orders (user_id : string) (limit offset : Z) : M json :=
  try_except
    (total_count <- orders_count_documents user_id ;;
     orders <- orders_find user_id offset limit ;;
     let order_list := map order_helper orders in
     let next_offset :=
       if offset + limit <? total_count then Some (offset + limit) else None in
     let prev_offset :=
       if 0 <? offset then Some (Z.max 0 (offset - limit)) else None in
     let pagination :=
       JDict [("next", match next_offset with Some n => JStr (str_int n) | None => JNull end);
              ("limit", JInt limit);
              ("previous", match prev_offset with Some n => JStr (str_int n) | None => JNull end)] in
     ret (JDict [("data", JList order_list); ("page", pagination)]))
    (fun e => raise (HTTPException 500 (str_exn e))).

(** [GET /orders/{user_id}]: [get_user_orders] behind its declared
    parameters, [limit] with [ge=1] and [offset] with [ge=0]. *)
Definition get_orders (user_id : string) (limit offset : Z) : World -> Response * World :=
  serve 200 (query_ge "limit" limit 1 ++ query_ge "offset" offset 0)
    (get_user_orders user_id limit offset).

(** An empty store on which no call fails. *)
Definition empty_world : World :=
  {| products_collection := []; orders_collection := [];
     next_oid := 1%N; clock := 0; faults := []; calls := [] |}.

(** ** Vocabulary of the properties *)

(** The stored product an order item refers to, if its id is well formed and
    some product has it. *)
Definition resolve (ps : list Product) (item : OrderItem) : option Product :=
  match ObjectId (productId item) with
  | Some id => find_by_id id ps
  | None => None
  end.

(** The response sent for [HTTPException(status_code=code, detail=detail)]. *)
Definition error_response (code : Z) (detail : string) : Response :=
  {| status := code; body := JDict [("detail", JStr detail)] |}.

(** The line item recorded for an item and the product it resolves to. *)
Definition order_line (p : Product) (item : OrderItem) : OrderLine :=
  {| pd_name := name p; pd_id := productId item; line_qty := qty item |}.

(** The running total after one more line: the product of price and
    quantity, rounded, added to the total so far, rounded again. *)
Definition add_line (acc : float) (l : Product * OrderItem) : float :=
  Float.add acc (Float.mul (price (fst l)) (Float.round_int (qty (snd l)))).

(** The total of an order as the floats compute it, lines taken in order
    from [0.0]. *)
Definition float_total (ls : list (Product * OrderItem)) : float :=
  fold_left add_line ls Float.zero.

(** The sum of price times quantity over the lines, as a rational number;
    [None] when some price has no numeric value. *)
Fixpoint exact_total (ls : list (Product * OrderItem)) : option Q :=
  match ls with
  | [] => Some 0%Q
  | (p, item) :: rest =>
      match Float.exact (price p), exact_total rest with
      | Some x, Some t => Some (x * inject_Z (qty item) + t)%Q
      | _, _ => None
      end
  end.

(** Two values are the same number. *)
Definition same_number (a b : option Q) : Prop :=
  match a, b with
  | Some x, Some y => (x == y)%Q
  | _, _ => False
  end.

(** The first [n] store calls to come do not fail. *)
Definition no_fault (n : nat) (w : World) : Prop :=
  Forall (fun b => b = false) (firstn n (faults w)).

(** The world after [ids] were looked up one after the other. *)
Definition looked_up (ids : list object_id) (w : World) : World :=
  {| products_collection := products_collection w;
     orders_collection := orders_collection w;
     next_oid := next_oid w;
     clock := clock w;
     faults := skipn (List.length ids) (faults w);
     calls := calls w ++ map ProductsFindOne ids |}.

(** The identifiers read from the product ids of the items, those that are
    no identifier left out. *)
Definition item_ids (items : list OrderItem) : list object_id :=
  flat_map (fun item =>
              match ObjectId (productId item) with
              | Some id => [id]
              | None => []
              end) items.

(** The world after [d] was inserted into the orders. *)
Definition with_order (d : OrderDoc) (w : World) : World :=
  {| products_collection := products_collection w;
     orders_collection := orders_collection w ++ [order_of_doc (next_oid w) d];
     next_oid := N.succ (next_oid w);
     clock := clock w;
     faults := tl (faults w);
     calls := calls w ++ [OrdersInsertOne d] |}.

(** The document [POST /orders] builds for an order whose items resolve to
    [found], at time [created]. *)
Definition order_doc (order : OrderCreate) (found : list Product) (created : Z) : OrderDoc :=
  {| doc_userId := userId order;
     doc_items := map (fun x => order_line (fst x) (snd x)) (combine found (items order));
     doc_total := float_total (combine found (items order));
     doc_createdAt := created |}.

(** The quantity converts to a float. *)
Definition convertible (item : OrderItem) : Prop := Float.of_int (qty item) <> None.

(** ** Worlds and requests of the scenarios *)

Definition tee : ProductCreate :=
  {| pc_name := "Tee"; pc_price := Float.round_int 20;
     pc_sizes := [{| size := "M"; quantity := 5 |}] |}.

(** The store after [POST /products] of the Tee on an empty store: its id is
    [000000000000000000000001]. *)
Definition tee_world : World := snd (post_products tee empty_world).

Definition P1 : string := "000000000000000000000001".

(** A well-formed id no product has, and a string that is no id. *)
Definition missing_id : string := "00000000000000000000000f".
Definition invalid_id : string := "not-an-id".

(** Every item with a bad product id decides the response: an invalid id
    gives 400, a well-formed id no product has gives 404. *)
Definition every_bad_item_reported (order : OrderCreate) (w : World) : Prop :=
  forall item, In item (items order) ->
    (ObjectId (productId item) = None ->
     status (fst (post_orders order w)) = 400) /\
    (forall id, ObjectId (productId item) = Some id ->
     find_by_id id (products_collection w) = None ->
     status (fst (post_orders order w)) = 404).

(** An order for a product that is not there and then for an id that is no
    id. *)
Definition missing_then_invalid : OrderCreate :=
  {| userId := "u1";
     items := [{| productId := missing_id; qty := 1 |};
               {| productId := invalid_id; qty := 1 |}] |}.

(** The float is zero or above: [0.0 <= x], which NaN fails. *)
Definition nonneg (x : float) : bool := Float.leb Float.zero x.

(** The persisted total of an accepted order is the sum of price times
    quantity over its items, as numbers. *)
Definition total_is_exact_sum (order : OrderCreate) (w : World) : Prop :=
  forall found,
    map (resolve (products_collection w)) (items order) = map Some found ->
    forall r w', post_orders order w = (r, w') -> status r = 201 ->
    exists o,
      orders_collection w' = orders_collection w ++ [o] /\
      same_number (Float.exact (total o)) (exact_total (combine found (items order))).

(** A product priced [0.1], and the store holding it. *)
Definition sticker : ProductCreate :=
  {| pc_name := "Sticker"; pc_price := Float.ratio 1 10; pc_sizes := [] |}.

Definition sticker_world : World := snd (post_products sticker empty_world).

Definition three_stickers : OrderCreate :=
  {| userId := "u1"; items := [{| productId := P1; qty := 3 |}] |}.

(** The total of every accepted order is zero or above. *)
Definition accepted_total_nonneg (order : OrderCreate) (w : World) : Prop :=
  forall r w', post_orders order w = (r, w') -> status r = 201 ->
  exists o,
    orders_collection w' = orders_collection w ++ [o] /\
    nonneg (total o) = true.

(** The same, for prices and quantities that are zero or above. *)
Definition total_nonneg_in_range (order : OrderCreate) (w : World) : Prop :=
  (forall p, In p (products_collection w) -> nonneg (price p) = true) ->
  (forall item, In item (items order) -> 0 <= qty item) ->
  accepted_total_nonneg order w.

(** A product priced [-5.0]: [ProductCreate] declares [price: float] and no
    range. *)
Definition refund : ProductCreate :=
  {| pc_name := "Refund"; pc_price := Float.round_int (-5); pc_sizes := [] |}.

Definition one_refund : OrderCreate :=
  {| userId := "u1"; items := [{| productId := P1; qty := 1 |}] |}.

(** A product priced [inf], which is above zero, and an order for none of
    it. *)
Definition priceless : ProductCreate :=
  {| pc_name := "Priceless"; pc_price := S754_infinity false; pc_sizes := [] |}.

Definition none_of_it : OrderCreate :=
  {| userId := "u1"; items := [{| productId := P1; qty := 0 |}] |}.

(** ** Vocabulary of the list endpoints *)

(** The descriptor [page] is the one for the page at [offset] of size
    [limit] in a result of [total_count] documents: its fields are [next],
    [limit] and [previous]; [next] is the string of [offset + limit] when that
    is below [total_count] and null otherwise; [previous] is the string of
    [max(0, offset - limit)] when [offset] is positive and null otherwise. *)
Definition describes_page (page : json) (total_count limit offset : Z) : Prop :=
  keys page = ["next"; "limit"; "previous"] /\
  get "limit" page = Some (JInt limit) /\
  (offset + limit < total_count ->
   get "next" page = Some (JStr (str_int (offset + limit)))) /\
  (total_count <= offset + limit -> get "next" page = Some JNull) /\
  (0 < offset ->
   get "previous" page = Some (JStr (str_int (Z.max 0 (offset - limit))))) /\
  (offset <= 0 -> get "previous" page = Some JNull).

(** The number of orders of a user. *)
Definition count_orders (user_id : string) (w : World) : Z :=
  Z.of_nat (List.length (filter (fun o => String.eqb (order_userId o) user_id)
                           (orders_collection w))).

(** The list endpoint, queried with [name] and [size], selects the product. *)
Definition selects (pcre_i : string -> option (string -> bool))
    (name size : option string) (p : Product) : Prop :=
  exists f, compile_filter pcre_i (build_query_filter name size) = Some f /\ f p = true.

(** [query] occurs in [subject], letter case ignored. *)
Definition ci_substring (query subject : string) : Prop :=
  exists pre post, lower subject = pre ++ lower query ++ post.

(** The name filter is the substring test. *)
Definition name_filter_is_substring (pcre_i : string -> option (string -> bool))
    (query : string) (p : Product) : Prop :=
  selects pcre_i (Some query) None p <-> ci_substring query (name p).

(** An engine that rejects every pattern outside the fragment. *)
Definition no_engine : string -> option (string -> bool) := fun _ => None.

Definition blue_shirt : Product :=
  {| product_id := 1%N; name := "Blue Shirt"; price := Float.round_int 15;
     sizes := [{| size := "M"; quantity := 3 |}; {| size := "L"; quantity := 0 |}] |}.

(** Three products stored one after the other on an empty store. *)
Definition three_products_world : World :=
  snd (post_products {| pc_name := "Cap"; pc_price := Float.round_int 9; pc_sizes := [] |}
         (snd (post_products {| pc_name := "Blue Shirt"; pc_price := Float.round_int 15;
                                pc_sizes := [{| size := "M"; quantity := 3 |}] |}
                 (snd (post_products tee empty_world))))).

(** ** Vocabulary of the store invariant and of pages *)

(** The ids are strictly increasing and all below [bound]. *)
Definition increasing_below (bound : N) (ids : list N) : Prop :=
  StronglySorted N.lt ids /\ Forall (fun id => (id < bound)%N) ids.

(** Each collection holds its documents by increasing [_id], and every id
    is below the next one the driver gives out. *)
Definition well_formed (w : World) : Prop :=
  increasing_below (next_oid w) (map product_id (products_collection w)) /\
  increasing_below (next_oid w) (map order_id (orders_collection w)).

(** The [data] list of a list response. *)
Definition data_of (r : Response) : list json :=
  match get "data" (body r) with
  | Some (JList data) => data
  | _ => []
  end.

(** The orders of a user, as stored. *)
Definition orders_of (user_id : string) (w : World) : list Order :=
  filter (fun o => String.eqb (order_userId o) user_id) (orders_collection w).

(** The largest id plus one: an id has 12 bytes. *)
Definition oid_limit : N := (2 ^ 96)%N.

(** The prices of the products are all finite: they can be written as
    JSON. *)
Definition prices_render (ps : list Product) : bool :=
  forallb (fun p => Float.is_finite (price p)) ps.

(** The totals of the orders are all finite. *)
Definition totals_render (os : list Order) : bool :=
  forallb (fun o => Float.is_finite (total o)) os.

(** The products a list request reads from the store under the filter [f]:
    those selected, by [_id], [offset] skipped and at most [limit] kept. *)
Definition product_page (f : Product -> bool) (limit offset : Z) (w : World) : list Product :=
  page_of offset limit (sort_by_id product_id (filter f (products_collection w))).

(** The orders a list request reads from the store for a user. *)
Definition order_page (user_id : string) (limit offset : Z) (w : World) : list Order :=
  page_of offset limit (sort_by_id order_id (orders_of user_id w)).

(** The value the two list functions return for [data] read from a result
    of [total_count] documents. *)
Definition list_body (data : list json) (total_count limit offset : Z) : json :=
  JDict
    [("data", JList data);
     ("page",
      JDict
        [("next", if offset + limit <? total_count
                  then JStr (str_int (offset + limit)) else JNull);
         ("limit", JInt limit);
         ("previous", if 0 <? offset
                      then JStr (str_int (Z.max 0 (offset - limit)))
                      else JNull)])].

(** ** The order loop *)

(** What one turn of the loop does, case by case. *)
Lemma order_loop_body_cases (item : OrderItem) (t : float) (l : list OrderLine) (w : World) :
  order_loop_body item (t, l) w =
  match ObjectId (productId item) with
  | None => (inl (HTTPException 400 ("Invalid product ID: " ++ productId item)%string), w)
  | Some id =>
      let w1 := issued (ProductsFindOne id) w in
      if fails w then (inl (Error "store failure"), w1)
      else
        match find_by_id id (products_collection w) with
        | None => (inl (HTTPException 404 ("Product not found: " ++ productId item)%string), w1)
        | Some p =>
            match Float.of_int (qty item) with
            | None => (inl (Error "int too large to convert to float"), w1)
            | Some f => (inr (Float.add t (Float.mul (price p) f), l ++ [order_line p item]), w1)
            end
        end
  end.
Proof.
  unfold order_loop_body, bind, products_find_one, store_call, float_mul_int, ret, raise.
  destruct (ObjectId (productId item)) as [id|]; [|reflexivity].
  destruct (fails w); [reflexivity|]. simpl.
  destruct (find_by_id id (products_collection w)) as [p|]; [|reflexivity].
  destruct (Float.of_int (qty item)); reflexivity.
Qed.

Lemma of_int_round (z : Z) (f : float) : Float.of_int z = Some f -> f = Float.round_int z.
Proof.
  unfold Float.of_int. destruct (Float.round_int z); intros H; inversion H; reflexivity.
Qed.

Lemma looked_up_nil (w : World) : looked_up [] w = w.
Proof. destruct w; unfold looked_up; simpl. now rewrite app_nil_r. Qed.

Lemma looked_up_cons (id : object_id) (ids : list object_id) (w : World) :
  looked_up ids (issued (ProductsFindOne id) w) = looked_up (id :: ids) w.
Proof.
  unfold looked_up, issued; simpl. f_equal.
  - now destruct (faults w); simpl; [destruct (List.length ids)|].
  - now rewrite <- app_assoc.
Qed.

Lemma order_loop_cons (item : OrderItem) (items : list OrderItem)
    (st : float * list OrderLine) (w : World) :
  order_loop (item :: items) st w =
  match order_loop_body item st w with
  | (inl e, w') => (inl e, w')
  | (inr st', w') => order_loop items st' w'
  end.
Proof. reflexivity. Qed.

(** The loop either completes, having looked up every item in turn, or stops
    at a first item: the items before it were looked up and accumulated, and
    the turn on that item raised. *)
Lemma order_loop_run (items : list OrderItem) (t : float) (l : list OrderLine) (w : World) :
  (exists ps,
     map (resolve (products_collection w)) items = map Some ps /\
     Forall convertible items /\
     no_fault (List.length items) w /\
     order_loop items (t, l) w =
       (inr (fold_left add_line (combine ps items) t,
             l ++ map (fun x => order_line (fst x) (snd x)) (combine ps items)),
        looked_up (item_ids items) w)) \/
  (exists pre item post ps e w',
     items = pre ++ item :: post /\
     map (resolve (products_collection w)) pre = map Some ps /\
     no_fault (List.length pre) w /\
     order_loop_body item
       (fold_left add_line (combine ps pre) t,
        l ++ map (fun x => order_line (fst x) (snd x)) (combine ps pre))
       (looked_up (item_ids pre) w) = (inl e, w') /\
     order_loop items (t, l) w = (inl e, w')).
Proof.
  revert t l w. induction items as [|item items IH]; intros t l w.
  - left. exists []. simpl. rewrite app_nil_r, looked_up_nil.
    repeat split; constructor.
  - pose proof (order_loop_body_cases item t l w) as Hb.
    pose proof (order_loop_cons item items (t, l) w) as Hc.
    destruct (order_loop_body item (t, l) w) as [[e|[t1 l1]] w1] eqn:Hrun.
    + right. exists [], item, items, [], e, w1.
      cbn [map combine fold_left List.length app].
      rewrite app_nil_r, looked_up_nil. repeat split; try constructor; assumption.
    + destruct (ObjectId (productId item)) as [id|] eqn:Hid; [|discriminate].
      cbv zeta in Hb. destruct (fails w) eqn:Hf; [discriminate|].
      destruct (find_by_id id (products_collection w)) as [p|] eqn:Hp; [|discriminate].
      destruct (Float.of_int (qty item)) as [f|] eqn:Hq; [|discriminate].
      inversion Hb; subst t1 l1 w1; clear Hb.
      assert (Hconv : convertible item) by (unfold convertible; now rewrite Hq).
      apply of_int_round in Hq. subst f.
      assert (Hres : resolve (products_collection w) item = Some p)
        by (unfold resolve; now rewrite Hid).
      assert (Hids : forall rest, item_ids (item :: rest) = id :: item_ids rest).
      { intros rest. unfold item_ids. cbn [flat_map]. now rewrite Hid. }
      assert (Hnf : forall n, no_fault n (issued (ProductsFindOne id) w) -> no_fault (S n) w).
      { intros n. unfold no_fault, issued, fails in *; simpl.
        destruct (faults w) as [|b fs]; simpl in *.
        - intros _. constructor.
        - subst b. intros H. now constructor. }
      destruct (IH (Float.add t (Float.mul (price p) (Float.round_int (qty item))))
                  (l ++ [order_line p item]) (issued (ProductsFindOne id) w))
        as [(ps & Hps & Hcs & Hn & Hloop) | (pre & it & post & ps & e & w' & Hit & Hps & Hn & Hbody & Hloop)].
      * left. exists (p :: ps).
        cbn [map combine fold_left List.length]. rewrite Hres.
        split; [now f_equal|]. split; [now constructor|]. split; [now apply Hnf|].
        rewrite Hc, Hloop, looked_up_cons, <- app_assoc, Hids. reflexivity.
      * right. exists (item :: pre), it, post, (p :: ps), e, w'.
        cbn [map combine fold_left List.length]. rewrite Hres.
        split; [now rewrite Hit|]. split; [now f_equal|]. split; [now apply Hnf|].
        rewrite Hids, <- looked_up_cons.
        rewrite <- app_assoc in Hbody.
        split; [exact Hbody|].
        now rewrite Hc, Hloop.
Qed.

(** ** The order handler *)

(** [POST /orders] in terms of its loop. *)
Lemma post_orders_run (order : OrderCreate) (w : World) :
  post_orders order w =
  match order_loop (items order) (Float.zero, []) w with
  | (inl (HTTPException code detail), w1) => (error_response code detail, w1)
  | (inl (Error message), w1) => (error_response 500 message, w1)
  | (inr (t, l), w1) =>
      let d := {| doc_userId := userId order; doc_items := l;
                  doc_total := t; doc_createdAt := clock w1 |} in
      if fails w1
      then (error_response 500 "store failure", issued (OrdersInsertOne d) w1)
      else ({| status := 201; body := JDict [("id", JStr (str_oid (next_oid w1)))] |},
            with_order d w1)
  end.
Proof.
  unfold post_orders, serve, create_order, try_except, bind.
  destruct (order_loop (items order) (Float.zero, []) w) as [[[c d|m]|[t l]] w1];
    try reflexivity.
  unfold now, orders_insert_one, store_call, ret, raise. cbv zeta.
  destruct (fails w1); reflexivity.
Qed.

Lemma resolve_id (ps : list Product) (item : OrderItem) (p : Product) :
  resolve ps item = Some p ->
  exists id, ObjectId (productId item) = Some id /\ find_by_id id ps = Some p.
Proof.
  unfold resolve. destruct (ObjectId (productId item)) as [id|]; [|discriminate].
  intros H. now exists id.
Qed.

Lemma item_ids_cons (item : OrderItem) (items : list OrderItem) (id : object_id) :
  ObjectId (productId item) = Some id -> item_ids (item :: items) = id :: item_ids items.
Proof. intros H. unfold item_ids. cbn [flat_map]. now rewrite H. Qed.

(** When every item resolves, the identifiers read are one for each item, in
    order. *)
Lemma resolve_ids (ps : list Product) (items : list OrderItem) (found : list Product) :
  map (resolve ps) items = map Some found ->
  map (fun it => ObjectId (productId it)) items = map Some (item_ids items) /\
  List.length (item_ids items) = List.length items.
Proof.
  revert found. induction items as [|it items IH]; intros [|p found] H;
    try discriminate; [split; reflexivity|].
  simpl in H. inversion H as [[H1 H2]].
  destruct (resolve_id _ _ _ H1) as (id & Hid & _).
  destruct (IH _ H2) as [Hmap Hlen].
  rewrite (item_ids_cons _ _ _ Hid). cbn [map List.length]. rewrite Hid, Hmap, Hlen.
  split; reflexivity.
Qed.

Lemma resolve_all_in (ps : list Product) (items : list OrderItem) (found : list Product) :
  map (resolve ps) items = map Some found ->
  forall item, In item items -> resolve ps item <> None.
Proof.
  revert found. induction items as [|it items IH]; intros [|p found] H item Hin;
    try discriminate; [contradiction|].
  simpl in *. inversion H as [[H1 H2]]. destruct Hin as [->|Hin].
  - now rewrite H1.
  - eapply IH; eauto.
Qed.

(** Two ways of cutting one list: the later cut point lies in the longer
    prefix. *)
Lemma cut_in_prefix {A} (pre pre' post post' : list A) (a b : A) :
  pre ++ a :: post = pre' ++ b :: post' ->
  (List.length pre' < List.length pre)%nat ->
  In b pre.
Proof.
  revert pre'. induction pre as [|x pre IH]; intros [|y pre'] H Hlt; simpl in *; try lia.
  - inversion H. now left.
  - inversion H. right. eapply IH; eauto. lia.
Qed.

Lemma looked_up_frame (ids : list object_id) (w : World) :
  products_collection (looked_up ids w) = products_collection w /\
  orders_collection (looked_up ids w) = orders_collection w /\
  next_oid (looked_up ids w) = next_oid w /\
  clock (looked_up ids w) = clock w.
Proof. unfold looked_up; simpl; auto. Qed.

Lemma looked_up_snoc (ids : list object_id) (id : object_id) (w : World) :
  issued (ProductsFindOne id) (looked_up ids w) = looked_up (ids ++ [id]) w.
Proof.
  unfold looked_up, issued; simpl. f_equal.
  - rewrite length_app. simpl. rewrite Nat.add_1_r.
    generalize (faults w). induction (List.length ids) as [|n IH]; intros [|b fs]; simpl; auto.
  - now rewrite map_app, app_assoc.
Qed.

(** A turn that raises has issued at most its own lookup, and has left the
    collections alone. *)
Lemma order_loop_body_raises (item : OrderItem) (st : float * list OrderLine)
    (ids : list object_id) (w w' : World) (e : exn) :
  order_loop_body item st (looked_up ids w) = (inl e, w') ->
  (ObjectId (productId item) = None /\ w' = looked_up ids w /\
   e = HTTPException 400 ("Invalid product ID: " ++ productId item)%string) \/
  (exists id, ObjectId (productId item) = Some id /\ w' = looked_up (ids ++ [id]) w /\
     (e = Error "store failure" /\ fails (looked_up ids w) = true \/
      e = HTTPException 404 ("Product not found: " ++ productId item)%string /\
        fails (looked_up ids w) = false /\
        find_by_id id (products_collection w) = None \/
      e = Error "int too large to convert to float" /\
        fails (looked_up ids w) = false /\
        resolve (products_collection w) item <> None /\ Float.of_int (qty item) = None)).
Proof.
  destruct st as [t l]. rewrite order_loop_body_cases.
  unfold resolve.
  destruct (ObjectId (productId item)) as [id|] eqn:Hid.
  - cbv zeta. rewrite looked_up_snoc. intros H. right. exists id.
    destruct (fails (looked_up ids w)) eqn:Hf.
    + inversion H; subst. auto.
    + destruct (looked_up_frame ids w) as [Hp _]. rewrite Hp in H.
      destruct (find_by_id id (products_collection w)) as [p|] eqn:Hfind.
      * destruct (Float.of_int (qty item)) eqn:Hq; inversion H; subst.
        repeat split; auto. right. right. repeat split; auto. discriminate.
      * inversion H; subst. repeat split; auto.
  - intros H; inversion H; subst. left. auto.
Qed.

Lemma firstn_prefix {A} (pre post : list A) :
  firstn (List.length pre) (pre ++ post) = pre.
Proof. induction pre; simpl; [now destruct post|now f_equal]. Qed.

Lemma firstn_prefix_one {A} (pre post : list A) (x : A) :
  firstn (S (List.length pre)) (pre ++ x :: post) = pre ++ [x].
Proof. induction pre; simpl; [now destruct post|now f_equal]. Qed.

(** C1. Order creation is atomic with respect to storage. Whatever the
    request and the store, [POST /orders] leaves the products alone; when it
    answers 201 it has looked up every item in turn and then inserted exactly
    one order document; when it answers anything else the orders are what
    they were. When some item of the request has an invalid product id or
    names no stored product, the request fails, no order is stored, and the
    only store calls made are product lookups for items up to that one, in
    order: none for a later item, and no insert. *)
Theorem create_order_atomic (order : OrderCreate) (w w' : World) (r : Response) :
  post_orders order w = (r, w') ->
  products_collection w' = products_collection w /\
  (status r = 201 ->
   exists ids d,
     map (fun it => ObjectId (productId it)) (items order) = map Some ids /\
     calls w' = calls w ++ map ProductsFindOne ids ++ [OrdersInsertOne d] /\
     orders_collection w' = orders_collection w ++ [order_of_doc (next_oid w) d]) /\
  (status r <> 201 -> orders_collection w' = orders_collection w) /\
  (forall pre item post,
     items order = pre ++ item :: post ->
     resolve (products_collection w) item = None ->
     status r <> 201 /\
     orders_collection w' = orders_collection w /\
     exists n ids,
       (n <= S (List.length pre))%nat /\
       map (fun it => ObjectId (productId it)) (firstn n (items order)) = map Some ids /\
       calls w' = calls w ++ map ProductsFindOne ids).
Proof.
  intros H. rewrite post_orders_run in H.
  destruct (order_loop_run (items order) Float.zero [] w)
    as [(ps & Hps & Hcs & Hn & Hloop) | (pre & it & post & ps & e & w1 & Hit & Hps & Hn & Hbody & Hloop)];
    rewrite Hloop in H.
  - (* the loop completed *)
    cbv zeta in H.
    assert (Hall : forall pre item post,
               items order = pre ++ item :: post ->
               resolve (products_collection w) item = None -> False).
    { intros pre item post Hit Hnone.
      apply (resolve_all_in _ _ _ Hps item); [|exact Hnone].
      rewrite Hit. apply in_or_app. right. now left. }
    destruct (fails (looked_up (item_ids (items order)) w)); inversion H; subst r w'; clear H.
    + simpl. split; [reflexivity|]. split; [discriminate|]. split; [reflexivity|].
      intros pre item post Hit Hnone; destruct (Hall _ _ _ Hit Hnone).
    + simpl. split; [reflexivity|]. split.
      * intros _. eexists _, _. split; [exact (proj1 (resolve_ids _ _ _ Hps))|].
        split; [now rewrite app_assoc|reflexivity].
      * split; [intros Hs; now destruct Hs|].
        intros pre item post Hit Hnone; destruct (Hall _ _ _ Hit Hnone).
  - (* the loop stopped at [it] *)
    assert (Hcut : forall pre' item post',
               items order = pre' ++ item :: post' ->
               resolve (products_collection w) item = None ->
               (List.length pre <= List.length pre')%nat).
    { intros pre' item post' Hit' Hnone.
      destruct (le_lt_dec (List.length pre) (List.length pre')) as [Hle|Hlt]; [exact Hle|].
      exfalso. apply (resolve_all_in _ _ _ Hps item); [|exact Hnone].
      rewrite Hit in Hit'. eapply cut_in_prefix; eauto. }
    apply resolve_ids in Hps. destruct Hps as [Hps _].
    apply order_loop_body_raises in Hbody.
    destruct Hbody as [(Hid & Hw & He) | (id & Hid & Hw & He)]; subst w1.
    + subst e. inversion H; subst r w'; clear H. simpl.
      split; [reflexivity|]. split; [discriminate|]. split; [reflexivity|].
      intros pre' item post' Hit' Hnone.
      split; [discriminate|]. split; [reflexivity|].
      exists (List.length pre), (item_ids pre).
      split; [specialize (Hcut _ _ _ Hit' Hnone); lia|].
      split; [|reflexivity]. now rewrite Hit, firstn_prefix.
    + assert (Hr : status r <> 201 /\ w' = looked_up (item_ids pre ++ [id]) w).
      { destruct He as [(He & _) | [(He & _) | (He & _)]]; subst e;
          inversion H; subst; simpl; split; auto; discriminate. }
      destruct Hr as [Hr Hw']. subst w'. simpl.
      split; [reflexivity|]. split; [intros Hs; now destruct Hr|]. split; [reflexivity|].
      intros pre' item post' Hit' Hnone.
      split; [exact Hr|]. split; [reflexivity|].
      exists (S (List.length pre)), (item_ids pre ++ [id]).
      split; [specialize (Hcut _ _ _ Hit' Hnone); lia|].
      split; [|reflexivity].
      rewrite Hit, firstn_prefix_one, !map_app, Hps. simpl. now rewrite Hid.
Qed.

Lemma no_fault_S (n : nat) (w : World) (c : call) :
  no_fault (S n) w -> fails w = false /\ no_fault n (issued c w).
Proof.
  unfold no_fault, fails, issued; simpl.
  destruct (faults w) as [|b fs]; simpl.
  - intros _. split; [reflexivity|]. destruct n; constructor.
  - intros H. inversion H; subst. auto.
Qed.

(** The loop completes when every item resolves, every quantity converts and
    no lookup fails. *)
Lemma order_loop_completes (items : list OrderItem) (found : list Product)
    (t : float) (l : list OrderLine) (w : World) :
  map (resolve (products_collection w)) items = map Some found ->
  Forall convertible items ->
  no_fault (List.length items) w ->
  order_loop items (t, l) w =
    (inr (fold_left add_line (combine found items) t,
          l ++ map (fun x => order_line (fst x) (snd x)) (combine found items)),
     looked_up (item_ids items) w).
Proof.
  revert found t l w. induction items as [|item items IH]; intros found t l w Hres Hconv Hnf.
  - destruct found; [|discriminate]. simpl. now rewrite app_nil_r, looked_up_nil.
  - destruct found as [|p found]; [discriminate|].
    cbn [map] in Hres. inversion Hres as [[Hp Hrest]].
    inversion Hconv as [|? ? Hq Hconv']; subst.
    cbn [List.length] in Hnf.
    destruct (resolve_id _ _ _ Hp) as (id & Hid & Hfind).
    destruct (no_fault_S _ _ (ProductsFindOne id) Hnf) as [Hf Hnf'].
    rewrite order_loop_cons, order_loop_body_cases, Hid. cbv zeta. rewrite Hf, Hfind.
    unfold convertible in Hq.
    destruct (Float.of_int (qty item)) as [f|] eqn:Hof; [|now destruct Hq].
    apply of_int_round in Hof. subst f.
    rewrite (IH found); auto.
    cbn [map combine fold_left].
    now rewrite looked_up_cons, <- app_assoc, (item_ids_cons _ _ _ Hid).
Qed.

Lemma all_false_hd (n : nat) (fs : list bool) :
  Forall (fun b => b = false) (firstn (S n) fs) -> hd false (skipn n fs) = false.
Proof.
  revert fs. induction n as [|n IH]; intros [|b fs] H; try reflexivity.
  - inversion H; subst. reflexivity.
  - cbn [skipn]. apply IH. cbn [firstn] in H. now inversion H.
Qed.

Lemma all_false_less (n : nat) (fs : list bool) :
  Forall (fun b => b = false) (firstn (S n) fs) -> Forall (fun b => b = false) (firstn n fs).
Proof.
  revert fs. induction n as [|n IH]; intros [|b fs] H; try constructor.
  - cbn [firstn] in H. now inversion H.
  - apply IH. cbn [firstn] in H. now inversion H.
Qed.

(** [POST /orders] accepts an order whose items all resolve and convert, when
    no store call fails: it answers 201 with the new id and has stored the
    assembled document. *)
Lemma post_orders_accepts (order : OrderCreate) (found : list Product) (w : World) :
  map (resolve (products_collection w)) (items order) = map Some found ->
  Forall convertible (items order) ->
  no_fault (S (List.length (items order))) w ->
  post_orders order w =
    ({| status := 201; body := JDict [("id", JStr (str_oid (next_oid w)))] |},
     with_order (order_doc order found (clock w)) (looked_up (item_ids (items order)) w)).
Proof.
  intros Hres Hconv Hnf.
  rewrite post_orders_run, (order_loop_completes _ found); auto;
    [|now apply all_false_less].
  cbv zeta.
  assert (Hf : fails (looked_up (item_ids (items order)) w) = false).
  { unfold fails, looked_up; simpl.
    rewrite (proj2 (resolve_ids _ _ _ Hres)). now apply all_false_hd. }
  rewrite Hf. reflexivity.
Qed.

(** C9. An order with no items is accepted whenever the insert into the
    store does not fail: the only store call is that insert (no product is
    looked up), the one document added to the orders has an empty item list
    and total [0.0], and the response is 201 with the id of the new
    document. *)
Theorem create_order_empty_items (user : string) (w : World) :
  fails w = false ->
  let d := {| doc_userId := user; doc_items := [];
              doc_total := Float.zero; doc_createdAt := clock w |} in
  let r := fst (post_orders {| userId := user; items := [] |} w) in
  let w' := snd (post_orders {| userId := user; items := [] |} w) in
  r = {| status := 201; body := JDict [("id", JStr (str_oid (next_oid w)))] |} /\
  calls w' = calls w ++ [OrdersInsertOne d] /\
  orders_collection w' = orders_collection w ++ [order_of_doc (next_oid w) d] /\
  order_id (order_of_doc (next_oid w) d) = next_oid w /\
  order_items (order_of_doc (next_oid w) d) = [] /\
  total (order_of_doc (next_oid w) d) = S754_zero false /\
  products_collection w' = products_collection w.
Proof.
  intros Hf. cbv zeta. rewrite post_orders_run. simpl. rewrite Hf. simpl.
  repeat split.
Qed.

Lemma create_order_empty_items_witness :
  fst (post_orders {| userId := "u1"; items := [] |} tee_world) =
    {| status := 201; body := JDict [("id", JStr "000000000000000000000002")] |} /\
  List.length (orders_collection (snd (post_orders {| userId := "u1"; items := [] |} tee_world))) = 1%nat.
Proof.
  destruct (create_order_empty_items "u1" tee_world eq_refl) as (Hr & _ & Ho & _).
  split; [exact Hr|]. rewrite Ho. reflexivity.
Defined.

Lemma order_loop_app (pre rest : list OrderItem) (st : float * list OrderLine) (w : World) :
  order_loop (pre ++ rest) st w =
  match order_loop pre st w with
  | (inl e, w') => (inl e, w')
  | (inr st', w') => order_loop rest st' w'
  end.
Proof.
  revert st w. induction pre as [|item pre IH]; intros st w; [reflexivity|].
  cbn [app]. rewrite !order_loop_cons.
  destruct (order_loop_body item st w) as [[e|st'] w']; [reflexivity|apply IH].
Qed.

(** With a second bad item behind a first one, the response is the first
    one's: the order for a missing product and then an invalid id is answered
    404, not 400. *)
Lemma second_bad_item_not_reported :
  ~ every_bad_item_reported missing_then_invalid tee_world.
Proof.
  intros H.
  destruct (H {| productId := invalid_id; qty := 1 |}) as [H400 _].
  - right. now left.
  - specialize (H400 eq_refl). vm_compute in H400. discriminate.
Qed.

(** C5, as the handler has it. The first item that fails decides the
    response. When the items before it all resolve to stored products with
    quantities that convert, and the lookups made for them do not fail: an
    invalid product id on that item gives 400 with detail
    [Invalid product ID: <id>], and a well-formed id that no product has, its
    lookup not failing either, gives 404 with detail
    [Product not found: <id>]. Every response to an order request is 201, such
    a 400 for an item of the request, such a 404 for an item of the request,
    or 500. *)
Theorem create_order_errors (order : OrderCreate) (w : World) :
  (forall pre item post found,
     items order = pre ++ item :: post ->
     map (resolve (products_collection w)) pre = map Some found ->
     Forall convertible pre ->
     no_fault (List.length pre) w ->
     (ObjectId (productId item) = None ->
      fst (post_orders order w) =
        error_response 400 ("Invalid product ID: " ++ productId item)%string) /\
     (forall id,
        ObjectId (productId item) = Some id ->
        find_by_id id (products_collection w) = None ->
        no_fault (S (List.length pre)) w ->
        fst (post_orders order w) =
          error_response 404 ("Product not found: " ++ productId item)%string)) /\
  (let r := fst (post_orders order w) in
   status r = 201 \/
   (exists item,
      In item (items order) /\ ObjectId (productId item) = None /\
      r = error_response 400 ("Invalid product ID: " ++ productId item)%string) \/
   (exists item id,
      In item (items order) /\ ObjectId (productId item) = Some id /\
      find_by_id id (products_collection w) = None /\
      r = error_response 404 ("Product not found: " ++ productId item)%string) \/
   (exists message, r = error_response 500 message)).
Proof.
  split.
  - intros pre item post found Hit Hres Hconv Hnf.
    assert (Hloop : order_loop (items order) (Float.zero, []) w =
                    order_loop (item :: post)
                      (fold_left add_line (combine found pre) Float.zero,
                       [] ++ map (fun x => order_line (fst x) (snd x)) (combine found pre))
                      (looked_up (item_ids pre) w)).
    { rewrite Hit, order_loop_app, (order_loop_completes pre found); auto. }
    rewrite post_orders_run, Hloop, order_loop_cons, order_loop_body_cases.
    split.
    + intros Hid. rewrite Hid. reflexivity.
    + intros id Hid Hnone Hnf1. rewrite Hid. cbv zeta.
      assert (Hf : fails (looked_up (item_ids pre) w) = false).
      { unfold fails, looked_up; simpl.
        rewrite (proj2 (resolve_ids _ _ _ Hres)). now apply all_false_hd. }
      rewrite Hf. destruct (looked_up_frame (item_ids pre) w) as [Hp _].
      rewrite Hp, Hnone. reflexivity.
  - cbv zeta. rewrite post_orders_run.
    destruct (order_loop_run (items order) Float.zero [] w)
      as [(ps & Hps & Hcs & Hn & Hloop) | (pre & it & post & ps & e & w1 & Hit & Hps & Hn & Hbody & Hloop)];
      rewrite Hloop.
    + cbv zeta. destruct (fails (looked_up (item_ids (items order)) w)).
      * right. right. right. now eexists.
      * now left.
    + assert (Hin : In it (items order)).
      { rewrite Hit. apply in_or_app. right. now left. }
      apply order_loop_body_raises in Hbody.
      destruct Hbody as [(Hid & Hw & He) | (id & Hid & Hw & [(He & _) | [(He & _ & Hnone) | (He & _)]])];
        subst e.
      * right. left. exists it. auto.
      * right. right. right. now eexists.
      * right. right. left. exists it, id. auto.
      * right. right. right. now eexists.
Qed.

Lemma create_order_errors_witness :
  fst (post_orders {| userId := "u1";
                      items := [{| productId := P1; qty := 2 |};
                                {| productId := invalid_id; qty := 1 |}] |} tee_world) =
    error_response 400 "Invalid product ID: not-an-id" /\
  fst (post_orders {| userId := "u1";
                      items := [{| productId := P1; qty := 2 |};
                                {| productId := missing_id; qty := 1 |}] |} tee_world) =
    error_response 404 "Product not found: 00000000000000000000000f".
Proof.
  assert (Hconv : Forall convertible [{| productId := P1; qty := 2 |}]).
  { repeat constructor. unfold convertible. vm_compute. discriminate. }
  split.
  - refine (proj1 (proj1 (create_order_errors
                            {| userId := "u1";
                               items := [{| productId := P1; qty := 2 |};
                                         {| productId := invalid_id; qty := 1 |}] |} tee_world)
                     [{| productId := P1; qty := 2 |}] {| productId := invalid_id; qty := 1 |} []
                     (products_collection tee_world) eq_refl eq_refl Hconv _) eq_refl).
    repeat constructor.
  - refine (proj2 (proj1 (create_order_errors
                            {| userId := "u1";
                               items := [{| productId := P1; qty := 2 |};
                                         {| productId := missing_id; qty := 1 |}] |} tee_world)
                     [{| productId := P1; qty := 2 |}] {| productId := missing_id; qty := 1 |} []
                     (products_collection tee_world) eq_refl eq_refl Hconv _)
                     (repeat 0%N 11 ++ [15%N]) eq_refl eq_refl _).
    + repeat constructor.
    + repeat constructor.
Defined.

Lemma create_order_atomic_witness :
  status (fst (post_orders missing_then_invalid tee_world)) <> 201 /\
  orders_collection (snd (post_orders missing_then_invalid tee_world)) =
    orders_collection tee_world /\
  exists n ids,
    (n <= 2)%nat /\
    map (fun it => ObjectId (productId it)) (firstn n (items missing_then_invalid)) =
      map Some ids /\
    calls (snd (post_orders missing_then_invalid tee_world)) =
      calls tee_world ++ map ProductsFindOne ids.
Proof.
  exact (proj2 (proj2 (proj2
           (create_order_atomic missing_then_invalid tee_world _ _
              (surjective_pairing (post_orders missing_then_invalid tee_world)))))
           [{| productId := missing_id; qty := 1 |}]
           {| productId := invalid_id; qty := 1 |} [] eq_refl eq_refl).
Defined.

(** A string of 24 characters with white space behind its digits is an
    identifier for [ObjectId], of fewer than 12 bytes: the product is looked
    up, and the answer is 404, not 400. *)
Lemma spaced_id_is_looked_up :
  let spaced := "0000000000000000000001  " in
  let request := {| userId := "u1"; items := [{| productId := spaced; qty := 1 |}] |} in
  ObjectId spaced = Some (repeat 0%N 10 ++ [1%N]) /\
  fst (post_orders request tee_world) =
    error_response 404 ("Product not found: " ++ spaced)%string /\
  calls (snd (post_orders request tee_world)) =
    calls tee_world ++ [ProductsFindOne (repeat 0%N 10 ++ [1%N])].
Proof. cbv zeta. split; [reflexivity|]. split; reflexivity. Qed.

(** ** Signs of float results *)

(** [nonneg] by cases. *)
Lemma nonneg_cases (x : float) :
  nonneg x =
  match x with
  | S754_zero _ => true
  | S754_infinity s | S754_finite s _ _ => negb s
  | S754_nan => false
  end.
Proof. destruct x as [s|s| |s m e]; try destruct s; reflexivity. Qed.

Lemma shr_1_nonneg (mrs : shr_record) : 0 <= shr_m mrs -> 0 <= shr_m (shr_1 mrs).
Proof.
  destruct mrs as [m r s]. simpl.
  destruct m as [|p|p]; try destruct p; simpl; lia.
Qed.

Lemma iter_pos_preserves {A} (P : A -> Prop) (f : A -> A) :
  (forall x, P x -> P (f x)) -> forall p x, P x -> P (iter_pos f p x).
Proof.
  intros Hf. induction p as [p IH|p IH|]; intros x Hx; simpl; auto.
Qed.

Lemma shr_fexp_nonneg (m e : Z) (l : location) :
  0 <= m -> 0 <= shr_m (fst (shr_fexp Float.prec Float.emax m e l)).
Proof.
  intros Hm. unfold shr_fexp, shr.
  assert (H0 : 0 <= shr_m (shr_record_of_loc m l)).
  { destruct l as [|[| |]]; exact Hm. }
  destruct (fexp Float.prec Float.emax (Zdigits2 m + e) - e) as [|p|p]; simpl; auto.
  apply iter_pos_preserves; auto. apply shr_1_nonneg.
Qed.

Lemma round_nearest_even_nonneg (m : Z) (l : location) :
  0 <= m -> 0 <= round_nearest_even m l.
Proof.
  intros Hm. destruct l as [|[| |]]; simpl; try lia.
  destruct (Z.even m); lia.
Qed.

(** Rounding a non-negative mantissa with a positive sign gives a positive
    zero, a positive finite float or plus infinity. *)
Lemma binary_round_aux_nonneg (mx ex : Z) (lx : location) :
  0 <= mx -> nonneg (binary_round_aux Float.prec Float.emax false mx ex lx) = true.
Proof.
  intros Hm. unfold binary_round_aux.
  pose proof (shr_fexp_nonneg mx ex lx Hm) as H1.
  destruct (shr_fexp Float.prec Float.emax mx ex lx) as [mrs' e']. simpl in H1.
  pose proof (shr_fexp_nonneg _ e' loc_Exact
                (round_nearest_even_nonneg _ (loc_of_shr_record mrs') H1)) as H2.
  destruct (shr_fexp Float.prec Float.emax
              (round_nearest_even (shr_m mrs') (loc_of_shr_record mrs')) e' loc_Exact)
    as [mrs'' e'']. simpl in H2.
  destruct (shr_m mrs'') as [|p|p]; [reflexivity| |lia].
  destruct (e'' <=? Float.emax - Float.prec); reflexivity.
Qed.

Lemma binary_round_nonneg (m : positive) (e : Z) :
  nonneg (binary_round Float.prec Float.emax false m e) = true.
Proof.
  unfold binary_round.
  destruct (shl_align m e (fexp Float.prec Float.emax (Z.pos (digits2_pos m) + e))) as [mz ez].
  apply binary_round_aux_nonneg. lia.
Qed.

Lemma round_int_nonneg (z : Z) : 0 <= z -> nonneg (Float.round_int z) = true.
Proof.
  intros Hz. unfold Float.round_int, binary_normalize.
  destruct z as [|p|p]; [reflexivity|apply binary_round_nonneg|lia].
Qed.

Lemma of_int_nonneg (z : Z) (f : float) :
  0 <= z -> Float.of_int z = Some f -> nonneg f = true /\ Float.is_finite f = true.
Proof.
  intros Hz Hf. pose proof (round_int_nonneg z Hz) as Hn.
  unfold Float.of_int in Hf. rewrite nonneg_cases in Hn.
  destruct (Float.round_int z) as [s|s| |s m e]; inversion Hf; subst;
    rewrite ?nonneg_cases; try discriminate; auto.
Qed.

(** A finite non-negative float times a finite non-negative float is
    non-negative. *)
Lemma mul_nonneg (x y : float) :
  Float.is_finite x = true -> nonneg x = true ->
  Float.is_finite y = true -> nonneg y = true ->
  nonneg (Float.mul x y) = true.
Proof.
  rewrite (nonneg_cases x), (nonneg_cases y).
  destruct x as [sx|sx| |sx mx ex]; destruct y as [sy|sy| |sy my ey];
    try discriminate; intros _ Hx _ Hy; try reflexivity.
  destruct sx; [discriminate|]. destruct sy; [discriminate|].
  unfold Float.mul, SFmul. simpl xorb. apply binary_round_aux_nonneg. lia.
Qed.

(** A sum of non-negative floats is non-negative. *)
Lemma add_nonneg (x y : float) :
  nonneg x = true -> nonneg y = true -> nonneg (Float.add x y) = true.
Proof.
  rewrite (nonneg_cases x), (nonneg_cases y).
  destruct x as [sx|sx| |sx mx ex]; destruct y as [sy|sy| |sy my ey];
    try discriminate; intros Hx Hy;
    try (destruct sx; try discriminate); try (destruct sy; try discriminate);
    try reflexivity.
  unfold Float.add, SFadd. cbv zeta. unfold cond_Zopp.
  destruct (shl_align mx ex (Z.min ex ey)) as [a ea].
  destruct (shl_align my ey (Z.min ex ey)) as [b eb]. simpl fst.
  change (Z.pos a + Z.pos b) with (Z.pos (a + b)).
  unfold binary_normalize. apply binary_round_nonneg.
Qed.

(** ** Totals *)

(** An accepted order: every item resolved and converted, and the stored
    document is the assembled one. *)
Lemma post_orders_accepted (order : OrderCreate) (w w' : World) (r : Response) :
  post_orders order w = (r, w') ->
  status r = 201 ->
  exists found,
    map (resolve (products_collection w)) (items order) = map Some found /\
    Forall convertible (items order) /\
    r = {| status := 201; body := JDict [("id", JStr (str_oid (next_oid w)))] |} /\
    w' = with_order (order_doc order found (clock w)) (looked_up (item_ids (items order)) w).
Proof.
  intros H Hs. rewrite post_orders_run in H.
  destruct (order_loop_run (items order) Float.zero [] w)
    as [(ps & Hps & Hcs & Hn & Hloop) | (pre & it & post & ps & e & w1 & Hit & Hps & Hn & Hbody & Hloop)];
    rewrite Hloop in H.
  - cbv zeta in H.
    destruct (fails (looked_up (item_ids (items order)) w)); inversion H; subst r w'.
    + discriminate.
    + exists ps. repeat split; auto.
  - apply order_loop_body_raises in Hbody.
    destruct Hbody as [(_ & _ & He) | (id & _ & _ & [(He & _) | [(He & _) | (He & _)]])];
      subst e; inversion H; subst r; discriminate.
Qed.

Lemma find_by_id_in (id : object_id) (ps : list Product) (p : Product) :
  find_by_id id ps = Some p -> In p ps.
Proof.
  induction ps as [|x xs IH]; simpl; [discriminate|].
  destruct (is_id id (product_id x)).
  - intros H; inversion H. now left.
  - intros H. right. now apply IH.
Qed.

Lemma resolved_lines (ps : list Product) (items : list OrderItem) (found : list Product) :
  map (resolve ps) items = map Some found ->
  forall p item, In (p, item) (combine found items) -> In p ps /\ In item items.
Proof.
  revert found. induction items as [|it items IH]; intros [|q found] H p item Hin;
    try discriminate; simpl in *; try contradiction.
  inversion H as [[H1 H2]]. destruct Hin as [Heq|Hin].
  - inversion Heq; subst. split; [|now left].
    unfold resolve in H1. destruct (ObjectId (productId item)); [|discriminate].
    eapply find_by_id_in; eauto.
  - destruct (IH _ H2 _ _ Hin). auto.
Qed.

(** The order for three stickers at [0.1] is accepted with the total
    [0.30000000000000004], the float next above the sum of three times the
    price: the stored total is not that sum. *)
Lemma sticker_total_not_exact : ~ total_is_exact_sum three_stickers sticker_world.
Proof.
  intros H.
  destruct (H (products_collection sticker_world) eq_refl _ _
              (surjective_pairing (post_orders three_stickers sticker_world)) eq_refl)
    as (o & Ho & Hsame).
  vm_compute in Ho. inversion Ho; subst o; clear Ho.
  vm_compute in Hsame. discriminate.
Qed.

(** C2, as the floats have it. An order whose items all resolve to stored
    products is accepted when its quantities convert to floats and no store
    call fails. The total stored with an accepted order, which is the total
    the order list returns for it, is the float sum of its lines: starting
    from [0.0], for each item in order, the price of the product it resolves
    to is multiplied by the quantity converted to a float, and the product is
    added to the running total, each of the two operations rounding to the
    nearest float. *)
Theorem order_total_float_sum (order : OrderCreate) (w : World) :
  (forall found,
     map (resolve (products_collection w)) (items order) = map Some found ->
     Forall convertible (items order) ->
     no_fault (S (List.length (items order))) w ->
     status (fst (post_orders order w)) = 201) /\
  (forall r w',
     post_orders order w = (r, w') ->
     status r = 201 ->
     exists found o,
       map (resolve (products_collection w)) (items order) = map Some found /\
       orders_collection w' = orders_collection w ++ [o] /\
       total o = float_total (combine found (items order)) /\
       get "total" (order_helper o) =
         Some (JFloat (float_total (combine found (items order))))).
Proof.
  split.
  - intros found Hres Hconv Hnf. now rewrite (post_orders_accepts _ found).
  - intros r w' H Hs.
    destruct (post_orders_accepted _ _ _ _ H Hs) as (found & Hres & _ & _ & Hw).
    subst w'. exists found. eexists. split; [exact Hres|]. repeat split.
Qed.

(** Two Tees at [20.0] make [40.0]. *)
Lemma order_total_float_sum_witness :
  exists o,
    orders_collection
      (snd (post_orders {| userId := "u1"; items := [{| productId := P1; qty := 2 |}] |}
              tee_world)) = [o] /\
    total o = Float.round_int 40 /\
    order_items o = [{| pd_name := "Tee"; pd_id := P1; line_qty := 2 |}].
Proof.
  pose proof (order_total_float_sum
                {| userId := "u1"; items := [{| productId := P1; qty := 2 |}] |}
                tee_world) as [Haccepts Htotal].
  assert (Hs : status (fst (post_orders
                              {| userId := "u1"; items := [{| productId := P1; qty := 2 |}] |}
                              tee_world)) = 201).
  { apply (Haccepts (products_collection tee_world) eq_refl).
    - repeat constructor. unfold convertible. vm_compute. discriminate.
    - repeat constructor. }
  destruct (Htotal _ _ (surjective_pairing _) Hs) as (found & o & Hres & Ho & Ht & _).
  exists o. split; [exact Ho|].
  vm_compute in Ho. inversion Ho; subst o. split; reflexivity.
Defined.

(** The schema accepts a product priced [-5.0], and the order for one of it
    is accepted with total [-5.0]. With ranges in force the total can still
    fail to be zero or above: a price of [inf] is above zero, and the order
    for a quantity of zero of it is accepted with total [nan]. *)
Lemma refund_total_negative :
  status (fst (post_products refund empty_world)) = 201 /\
  ~ accepted_total_nonneg one_refund (snd (post_products refund empty_world)) /\
  status (fst (post_products priceless empty_world)) = 201 /\
  ~ total_nonneg_in_range none_of_it (snd (post_products priceless empty_world)).
Proof.
  split; [reflexivity|]. split; [|split; [reflexivity|]].
  - intros H.
    destruct (H _ _ (surjective_pairing _) eq_refl) as (o & Ho & Hneg).
    vm_compute in Ho. inversion Ho; subst o; clear Ho.
    vm_compute in Hneg. discriminate.
  - intros H.
    assert (Hprices : forall p,
               In p (products_collection (snd (post_products priceless empty_world))) ->
               nonneg (price p) = true).
    { intros p [<-|[]]. reflexivity. }
    assert (Hqtys : forall item, In item (items none_of_it) -> 0 <= qty item).
    { intros item [<-|[]]. simpl. lia. }
    destruct (H Hprices Hqtys _ _ (surjective_pairing _) eq_refl) as (o & Ho & Hneg).
    vm_compute in Ho. inversion Ho; subst o; clear Ho.
    vm_compute in Hneg. discriminate.
Qed.

Lemma float_total_nonneg (ls : list (Product * OrderItem)) (acc : float) :
  nonneg acc = true ->
  (forall p item, In (p, item) ls ->
     Float.is_finite (price p) = true /\ nonneg (price p) = true /\
     0 <= qty item /\ convertible item) ->
  nonneg (fold_left add_line ls acc) = true.
Proof.
  revert acc. induction ls as [|[p item] ls IH]; intros acc Hacc Hls; [exact Hacc|].
  cbn [fold_left]. apply IH.
  - destruct (Hls p item (or_introl eq_refl)) as (Hfin & Hpos & Hq & Hconv).
    unfold add_line; cbn [fst snd]. apply add_nonneg; [exact Hacc|].
    unfold convertible in Hconv.
    destruct (Float.of_int (qty item)) as [f|] eqn:Hf; [|now destruct Hconv].
    destruct (of_int_nonneg _ _ Hq Hf) as [Hfpos Hffin].
    apply of_int_round in Hf. subst f. now apply mul_nonneg.
  - intros q it Hin. apply Hls. now right.
Qed.

(** C6, as the code has it. The request models declare the types of [price]
    and [qty] and no range. When every stored product has a finite price that
    is zero or above, and every quantity of the request is zero or above, the
    total stored with an accepted order is zero or above. *)
Theorem accepted_total_nonneg_in_range (order : OrderCreate) (w w' : World) (r : Response) :
  (forall p, In p (products_collection w) ->
     Float.is_finite (price p) = true /\ nonneg (price p) = true) ->
  (forall item, In item (items order) -> 0 <= qty item) ->
  post_orders order w = (r, w') ->
  status r = 201 ->
  exists o,
    orders_collection w' = orders_collection w ++ [o] /\
    nonneg (total o) = true.
Proof.
  intros Hprices Hqtys H Hs.
  destruct (post_orders_accepted _ _ _ _ H Hs) as (found & Hres & Hconv & _ & Hw).
  subst w'. eexists. split; [reflexivity|].
  cbn [total order_of_doc doc_total order_doc]. unfold float_total.
  apply float_total_nonneg; [reflexivity|].
  intros p item Hin.
  destruct (resolved_lines _ _ _ Hres _ _ Hin) as [Hp Hitem].
  destruct (Hprices p Hp) as [Hfin Hpos].
  repeat split; auto.
  rewrite Forall_forall in Hconv. now apply Hconv.
Qed.

Lemma accepted_total_nonneg_in_range_witness :
  exists o,
    orders_collection
      (snd (post_orders {| userId := "u1"; items := [{| productId := P1; qty := 2 |}] |}
              tee_world)) = orders_collection tee_world ++ [o] /\
    nonneg (total o) = true.
Proof.
  apply (accepted_total_nonneg_in_range
           {| userId := "u1"; items := [{| productId := P1; qty := 2 |}] |}
           tee_world
           (snd (post_orders {| userId := "u1"; items := [{| productId := P1; qty := 2 |}] |}
                   tee_world))
           (fst (post_orders {| userId := "u1"; items := [{| productId := P1; qty := 2 |}] |}
                   tee_world))).
  - intros p [<-|[]]. split; reflexivity.
  - intros item [<-|[]]. simpl. lia.
  - apply surjective_pairing.
  - reflexivity.
Defined.

(** ** The list endpoints *)

Lemma renders_products (ps : list Product) :
  forallb renders (map product_helper ps) = prices_render ps.
Proof.
  induction ps as [|p ps IH]; [reflexivity|].
  cbn [map forallb prices_render]. fold (prices_render ps). rewrite IH.
  cbn [product_helper renders forallb]. now rewrite andb_true_r.
Qed.

Lemma renders_lines (ls : list OrderLine) : forallb renders (map order_line_json ls) = true.
Proof. induction ls as [|l ls IH]; [reflexivity|]. cbn [map forallb]. now rewrite IH. Qed.

Lemma renders_orders (os : list Order) :
  forallb renders (map order_helper os) = totals_render os.
Proof.
  induction os as [|o os IH]; [reflexivity|].
  cbn [map forallb totals_render]. fold (totals_render os). rewrite IH.
  cbn [order_helper renders forallb]. now rewrite renders_lines, andb_true_r.
Qed.

(** The parameters of a list request are in their declared ranges. *)
Lemma query_in_range (limit offset : Z) :
  query_ge "limit" limit 1 ++ query_ge "offset" offset 0 = [] <-> 1 <= limit /\ 0 <= offset.
Proof.
  unfold query_ge.
  destruct (Z.ltb_spec limit 1); destruct (Z.ltb_spec offset 0); simpl;
    split; try discriminate; try lia; reflexivity.
Qed.

(** [GET /products], call by call. *)
Lemma get_products_run (pcre_i : string -> option (string -> bool))
    (name size : option string) (limit offset : Z) (w : World) :
  get_products pcre_i name size limit offset w =
  let q := build_query_filter name size in
  let w1 := issued (ProductsCountDocuments q) w in
  let w2 := issued (ProductsFind q offset limit) w1 in
  match query_ge "limit" limit 1 ++ query_ge "offset" offset 0 with
  | _ :: _ => (unprocessable (query_ge "limit" limit 1 ++ query_ge "offset" offset 0), w)
  | [] =>
      if fails w then (error_response 500 "store failure", w1)
      else
        match compile_filter pcre_i q with
        | None => (error_response 500 "Regular expression is invalid", w1)
        | Some f =>
            if fails w1 then (error_response 500 "store failure", w2)
            else if prices_render (product_page f limit offset w)
            then ({| status := 200;
                     body := list_body (map product_helper (product_page f limit offset w))
                               (Z.of_nat (List.length (filter f (products_collection w))))
                               limit offset |}, w2)
            else (internal_server_error, w2)
        end
  end.
Proof.
  unfold get_products, serve.
  destruct (query_ge "limit" limit 1 ++ query_ge "offset" offset 0); [|reflexivity].
  unfold list_products, try_except, bind,
    products_count_documents, products_find, store_call, ret, raise.
  cbv zeta.
  destruct (fails w); [reflexivity|].
  destruct (compile_filter pcre_i (build_query_filter name size)) as [f|]; [|reflexivity].
  destruct (fails (issued (ProductsCountDocuments (build_query_filter name size)) w));
    [reflexivity|].
  cbn [products_collection issued].
  fold (product_page f limit offset w). unfold list_body.
  destruct (offset + limit <? _); destruct (0 <? offset);
    cbn [renders forallb andb]; rewrite andb_true_r, renders_products; reflexivity.
Qed.

(** [GET /orders/{user_id}], call by call. *)
Lemma get_orders_run (user_id : string) (limit offset : Z) (w : World) :
  get_orders user_id limit offset w =
  let w1 := issued (OrdersCountDocuments user_id) w in
  let w2 := issued (OrdersFind user_id offset limit) w1 in
  match query_ge "limit" limit 1 ++ query_ge "offset" offset 0 with
  | _ :: _ => (unprocessable (query_ge "limit" limit 1 ++ query_ge "offset" offset 0), w)
  | [] =>
      if fails w then (error_response 500 "store failure", w1)
      else if fails w1 then (error_response 500 "store failure", w2)
      else if totals_render (order_page user_id limit offset w)
      then ({| status := 200;
               body := list_body (map order_helper (order_page user_id limit offset w))
                         (count_orders user_id w) limit offset |}, w2)
      else (internal_server_error, w2)
  end.
Proof.
  unfold get_orders, serve.
  destruct (query_ge "limit" limit 1 ++ query_ge "offset" offset 0); [|reflexivity].
  unfold get_user_orders, try_except, bind,
    orders_count_documents, orders_find, store_call, ret, raise.
  cbv zeta.
  destruct (fails w); [reflexivity|].
  destruct (fails (issued (OrdersCountDocuments user_id) w)); [reflexivity|].
  cbn [orders_collection issued].
  fold (orders_of user_id w). fold (order_page user_id limit offset w).
  fold (count_orders user_id w). unfold list_body.
  destruct (offset + limit <? _); destruct (0 <? offset);
    cbn [renders forallb andb]; rewrite andb_true_r, renders_orders; reflexivity.
Qed.

Lemma no_fault_two (w : World) (c : call) :
  no_fault 2 w -> fails w = false /\ fails (issued c w) = false.
Proof.
  intros H. destruct (no_fault_S _ _ c H) as [H1 H2]. split; [exact H1|].
  now destruct (no_fault_S _ _ c H2).
Qed.

Lemma no_fault_two_iff (w : World) (c : call) :
  no_fault 2 w <-> fails w = false /\ fails (issued c w) = false.
Proof.
  split; [apply no_fault_two|].
  unfold no_fault, fails, issued; simpl.
  destruct (faults w) as [|a [|b fs]]; simpl; intros [Ha Hb]; subst; repeat constructor.
Qed.

(** [GET /products] answers 200 exactly when the parameters are in range,
    the two store calls do not fail, the store accepts the filter and the
    prices on the page are finite. *)
Lemma get_products_200 (pcre_i : string -> option (string -> bool))
    (qname qsize : option string) (limit offset : Z) (w : World) :
  status (fst (get_products pcre_i qname qsize limit offset w)) = 200 <->
  1 <= limit /\ 0 <= offset /\ no_fault 2 w /\
  exists f,
    compile_filter pcre_i (build_query_filter qname qsize) = Some f /\
    prices_render (product_page f limit offset w) = true.
Proof.
  rewrite get_products_run. cbv zeta.
  rewrite (no_fault_two_iff w (ProductsCountDocuments (build_query_filter qname qsize))).
  pose proof (query_in_range limit offset) as Hq.
  destruct (query_ge "limit" limit 1 ++ query_ge "offset" offset 0) as [|e es].
  - destruct (proj1 Hq eq_refl) as [Hl Ho].
    destruct (fails w);
      [simpl; split; [discriminate|intros (_ & _ & [H _] & _); discriminate]|].
    destruct (compile_filter pcre_i (build_query_filter qname qsize)) as [f|];
      [|simpl; split; [discriminate|intros (_ & _ & _ & f & H & _); discriminate]].
    destruct (fails _);
      [simpl; split; [discriminate|intros (_ & _ & [_ H] & _); discriminate]|].
    destruct (prices_render (product_page f limit offset w)) eqn:Hr; simpl.
    + split; [|reflexivity]. intros _. repeat split; auto. now exists f.
    + split; [discriminate|]. intros (_ & _ & _ & f' & Hf & Hr').
      inversion Hf; subst f'. congruence.
  - simpl. split; [discriminate|]. intros (Hl & Ho & _).
    discriminate (proj2 Hq (conj Hl Ho)).
Qed.

(** What [GET /products] answers with 200. *)
Lemma get_products_answer (pcre_i : string -> option (string -> bool))
    (qname qsize : option string) (limit offset : Z) (w : World) (f : Product -> bool) :
  compile_filter pcre_i (build_query_filter qname qsize) = Some f ->
  status (fst (get_products pcre_i qname qsize limit offset w)) = 200 ->
  fst (get_products pcre_i qname qsize limit offset w) =
    {| status := 200;
       body := list_body (map product_helper (product_page f limit offset w))
                 (Z.of_nat (List.length (filter f (products_collection w))))
                 limit offset |}.
Proof.
  intros Hf. rewrite get_products_run. cbv zeta.
  destruct (query_ge "limit" limit 1 ++ query_ge "offset" offset 0); [|discriminate].
  destruct (fails w); [discriminate|]. rewrite Hf.
  destruct (fails _); [discriminate|].
  destruct (prices_render (product_page f limit offset w)); [reflexivity|discriminate].
Qed.

(** [GET /orders/{user_id}] answers 200 exactly when the parameters are in
    range, the two store calls do not fail and the totals on the page are
    finite. *)
Lemma get_orders_200 (user_id : string) (limit offset : Z) (w : World) :
  status (fst (get_orders user_id limit offset w)) = 200 <->
  1 <= limit /\ 0 <= offset /\ no_fault 2 w /\
  totals_render (order_page user_id limit offset w) = true.
Proof.
  rewrite get_orders_run. cbv zeta.
  rewrite (no_fault_two_iff w (OrdersCountDocuments user_id)).
  pose proof (query_in_range limit offset) as Hq.
  destruct (query_ge "limit" limit 1 ++ query_ge "offset" offset 0) as [|e es].
  - destruct (proj1 Hq eq_refl) as [Hl Ho].
    destruct (fails w);
      [simpl; split; [discriminate|intros (_ & _ & [H _] & _); discriminate]|].
    destruct (fails _);
      [simpl; split; [discriminate|intros (_ & _ & [_ H] & _); discriminate]|].
    destruct (totals_render (order_page user_id limit offset w)) eqn:Hr; simpl.
    + split; [|reflexivity]. intros _. repeat split; auto.
    + split; [discriminate|]. intros (_ & _ & _ & Hr'). discriminate.
  - simpl. split; [discriminate|]. intros (Hl & Ho & _).
    discriminate (proj2 Hq (conj Hl Ho)).
Qed.

(** What [GET /orders/{user_id}] answers with 200. *)
Lemma get_orders_answer (user_id : string) (limit offset : Z) (w : World) :
  status (fst (get_orders user_id limit offset w)) = 200 ->
  fst (get_orders user_id limit offset w) =
    {| status := 200;
       body := list_body (map order_helper (order_page user_id limit offset w))
                 (count_orders user_id w) limit offset |}.
Proof.
  rewrite get_orders_run. cbv zeta.
  destruct (query_ge "limit" limit 1 ++ query_ge "offset" offset 0); [|discriminate].
  destruct (fails w); [discriminate|].
  destruct (fails _); [discriminate|].
  destruct (totals_render (order_page user_id limit offset w)); [reflexivity|discriminate].
Qed.

(** The descriptor the two handlers build is the one [describes_page] asks
    for. *)
Lemma pagination_describes (total_count limit offset : Z) :
  describes_page
    (JDict
       [("next", if offset + limit <? total_count
                 then JStr (str_int (offset + limit)) else JNull);
        ("limit", JInt limit);
        ("previous", if 0 <? offset
                     then JStr (str_int (Z.max 0 (offset - limit)))
                     else JNull)])
    total_count limit offset.
Proof.
  unfold describes_page. cbn [keys get lookup map fst String.eqb Ascii.eqb Bool.eqb].
  repeat split; intros H.
  - apply Z.ltb_lt in H. now rewrite H.
  - apply Z.ltb_ge in H. now rewrite H.
  - apply Z.ltb_lt in H. now rewrite H.
  - apply Z.ltb_ge in H. now rewrite H.
Qed.

(** [str] on an int can be read back. *)
Lemma int_str_str_int (z : Z) : int_str (str_int z) = Some z.
Proof.
  unfold int_str, str_int.
  rewrite NilZero.isi.
  - simpl. now rewrite DecimalZ.of_to.
  - destruct z as [|p|p]; simpl; try discriminate.
    intros H. inversion H as [Hp]. now apply DecimalPos.Unsigned.to_uint_nonnil in Hp.
  - destruct z as [|p|p]; simpl; try discriminate.
    intros H. inversion H as [Hp]. now apply DecimalPos.Unsigned.to_uint_nonnil in Hp.
Qed.

(** C3. A list response, that is the 200 response of either list endpoint,
    is given for [limit >= 1] and [offset >= 0] only, and carries a [page] of
    exactly the fields [next], [limit] and [previous], computed from the
    number of documents the filter selects: [next] is the decimal string of
    [offset + limit] when [offset + limit < total_count] and null otherwise;
    [previous] is the decimal string of [max(0, offset - limit)] when
    [offset > 0] and null otherwise; such a string reads back as the offset.
    The response is 200 whenever the parameters are in these ranges, the two
    store calls succeed, the filter is accepted and the prices (the totals,
    for orders) on the page are finite. Listing three stored products with
    [limit = 1] and [offset = 0] gives [next = "1"] and [previous = null]. *)
Theorem list_pagination (limit offset : Z) :
  (forall pcre_i qname qsize w,
     let r := fst (get_products pcre_i qname qsize limit offset w) in
     status r = 200 ->
     1 <= limit /\ 0 <= offset /\
     exists f page,
       compile_filter pcre_i (build_query_filter qname qsize) = Some f /\
       get "page" (body r) = Some page /\
       describes_page page
         (Z.of_nat (List.length (filter f (products_collection w)))) limit offset) /\
  (forall pcre_i qname qsize w f,
     1 <= limit -> 0 <= offset ->
     compile_filter pcre_i (build_query_filter qname qsize) = Some f ->
     no_fault 2 w ->
     prices_render (product_page f limit offset w) = true ->
     status (fst (get_products pcre_i qname qsize limit offset w)) = 200) /\
  (forall user_id w,
     let r := fst (get_orders user_id limit offset w) in
     status r = 200 ->
     1 <= limit /\ 0 <= offset /\
     exists page,
       get "page" (body r) = Some page /\
       describes_page page (count_orders user_id w) limit offset) /\
  (forall user_id w,
     1 <= limit -> 0 <= offset ->
     no_fault 2 w ->
     totals_render (order_page user_id limit offset w) = true ->
     status (fst (get_orders user_id limit offset w)) = 200) /\
  (forall n, int_str (str_int n) = Some n) /\
  (let r := fst (get_products no_engine None None 1 0 three_products_world) in
   List.length (products_collection three_products_world) = 3%nat /\
   status r = 200 /\
   exists page,
     get "page" (body r) = Some page /\
     get "next" page = Some (JStr "1") /\
     get "previous" page = Some JNull).
Proof.
  split; [|split; [|split; [|split; [|split]]]].
  - intros pcre_i qname qsize w. cbv zeta. intros Hs.
    destruct (proj1 (get_products_200 _ _ _ _ _ _) Hs) as (Hl & Ho & _ & f & Hf & _).
    split; [exact Hl|]. split; [exact Ho|].
    rewrite (get_products_answer _ _ _ _ _ _ f Hf Hs).
    exists f. eexists. split; [exact Hf|]. split; [reflexivity|].
    apply pagination_describes.
  - intros pcre_i qname qsize w f Hl Ho Hf Hnf Hr.
    apply get_products_200. repeat split; auto. now exists f.
  - intros user_id w. cbv zeta. intros Hs.
    destruct (proj1 (get_orders_200 _ _ _ _) Hs) as (Hl & Ho & _).
    split; [exact Hl|]. split; [exact Ho|].
    rewrite (get_orders_answer _ _ _ _ Hs).
    eexists. split; [reflexivity|]. apply pagination_describes.
  - intros user_id w Hl Ho Hnf Hr. apply get_orders_200. repeat split; auto.
  - apply int_str_str_int.
  - cbv zeta. split; [reflexivity|]. split; [reflexivity|].
    eexists. split; [reflexivity|]. split; reflexivity.
Qed.

(** The Tee and the Blue Shirt have an [e] in their names, the Cap has not:
    the second page of size 1 of the products named with an [e] is the last
    one. *)
Lemma list_pagination_witness :
  status (fst (get_products no_engine (Some "e") None 1 1 three_products_world)) = 200 /\
  exists page,
    get "page" (body (fst (get_products no_engine (Some "e") None 1 1 three_products_world)))
      = Some page /\
    get "next" page = Some JNull /\
    get "previous" page = Some (JStr "0").
Proof.
  assert (H1 : 1 <= 1) by lia. assert (H0 : 0 <= 1) by lia.
  assert (Hnf : no_fault 2 three_products_world) by repeat constructor.
  pose proof (proj1 (proj2 (list_pagination 1 1)) no_engine (Some "e") None
                three_products_world _ H1 H0 eq_refl Hnf eq_refl) as Hs.
  split; [exact Hs|].
  destruct (proj1 (list_pagination 1 1) no_engine (Some "e") None three_products_world Hs)
    as (_ & _ & f & page & Hf & Hpage & Hd).
  exists page. split; [exact Hpage|].
  vm_compute in Hf. inversion Hf; subst f.
  destruct Hd as (_ & _ & _ & Hnext & Hprev & _).
  split; [apply Hnext; vm_compute; discriminate|apply Hprev; reflexivity].
Defined.

(** ** The product filter *)

Lemma selects_cases (pcre_i : string -> option (string -> bool))
    (qname qsize : option string) (p : Product) :
  selects pcre_i qname qsize p <->
  match truthy qname with
  | None => True
  | Some n => exists m, regex_i pcre_i n = Some m /\ m (name p) = true
  end /\
  match truthy qsize with
  | None => True
  | Some s => has_size s p = true
  end.
Proof.
  unfold selects, compile_filter, build_query_filter. cbn [qf_name qf_size].
  destruct (truthy qname) as [n|]; destruct (truthy qsize) as [s|].
  - destruct (regex_i pcre_i n) as [m|].
    + split.
      * intros (f & Hf & Hp). inversion Hf; subst f. apply andb_true_iff in Hp.
        destruct Hp. split; [now exists m|assumption].
      * intros [(m' & Hm & Hp) Hs]. inversion Hm; subst m'.
        eexists. split; [reflexivity|]. cbv beta. now rewrite Hp, Hs.
    + split; [intros (f & Hf & _); discriminate|intros [(m & Hm & _) _]; discriminate].
  - destruct (regex_i pcre_i n) as [m|].
    + split.
      * intros (f & Hf & Hp). inversion Hf; subst f. apply andb_true_iff in Hp.
        destruct Hp. split; [now exists m|exact I].
      * intros [(m' & Hm & Hp) _]. inversion Hm; subst m'.
        eexists. split; [reflexivity|]. cbv beta. now rewrite Hp.
    + split; [intros (f & Hf & _); discriminate|intros [(m & Hm & _) _]; discriminate].
  - split.
    + intros (f & Hf & Hp). inversion Hf; subst f. auto.
    + intros [_ Hs]. eexists. split; [reflexivity|exact Hs].
  - split; [auto|]. intros _. eexists. split; reflexivity.
Qed.




(** C8. An item of the product list has exactly the fields [id], [name] and
    [price], and no [sizes], whatever the sizes of the stored product: this
    holds of [product_helper], which does not read the sizes, and of every
    item of [data] in a 200 response of the list endpoint. *)
Theorem product_list_item_fields :
  (forall p,
     keys (product_helper p) = ["id"; "name"; "price"] /\
     get "sizes" (product_helper p) = None) /\
  (forall p sz,
     product_helper {| product_id := product_id p; name := name p;
                       price := price p; sizes := sz |} = product_helper p) /\
  (forall pcre_i qname qsize limit offset w,
     let r := fst (get_products pcre_i qname qsize limit offset w) in
     status r = 200 ->
     exists data,
       get "data" (body r) = Some (JList data) /\
       Forall (fun item => keys item = ["id"; "name"; "price"] /\ get "sizes" item = None)
         data).
Proof.
  split; [|split].
  - intros p. split; reflexivity.
  - intros p sz. reflexivity.
  - intros pcre_i qname qsize limit offset w. cbv zeta. intros Hs.
    destruct (proj1 (get_products_200 _ _ _ _ _ _) Hs) as (_ & _ & _ & f & Hf & _).
    rewrite (get_products_answer _ _ _ _ _ _ f Hf Hs).
    eexists. split; [reflexivity|].
    apply Forall_forall. intros item Hin. apply in_map_iff in Hin.
    destruct Hin as (p & <- & _). split; reflexivity.
Qed.

Lemma product_list_item_fields_witness :
  exists data,
    get "data" (body (fst (get_products no_engine None None 10 0 three_products_world)))
      = Some (JList data) /\
    Forall (fun item => keys item = ["id"; "name"; "price"] /\ get "sizes" item = None) data.
Proof.
  exact (proj2 (proj2 product_list_item_fields) no_engine None None 10 0
           three_products_world eq_refl).
Defined.

(** C10. A [name] or [size] parameter given as the empty string is treated as
    an absent one: the request is answered, and the store called, exactly as
    without the parameter, the filter having no entry for it; with both
    parameters empty every product is selected. *)
Theorem empty_parameter_is_absent (pcre_i : string -> option (string -> bool))
    (qname qsize : option string) (limit offset : Z) (w : World) :
  get_products pcre_i (Some "") qsize limit offset w =
    get_products pcre_i None qsize limit offset w /\
  get_products pcre_i qname (Some "") limit offset w =
    get_products pcre_i qname None limit offset w /\
  qf_name (build_query_filter (Some "") qsize) = None /\
  qf_size (build_query_filter qname (Some "")) = None /\
  (forall p, selects pcre_i (Some "") qsize p <-> selects pcre_i None qsize p) /\
  (forall p, selects pcre_i qname (Some "") p <-> selects pcre_i qname None p) /\
  (forall p, selects pcre_i (Some "") (Some "") p).
Proof.
  repeat split; try (intros H; exact H).
  eexists. split; reflexivity.
Qed.

(** ** The name filter on literal patterns *)

Lemma is_literal_not_dot (c : ascii) : is_literal c = true -> Ascii.eqb c "." = false.
Proof.
  destruct (Ascii.eqb_spec c ".") as [->|]; [|reflexivity].
  vm_compute. discriminate.
Qed.

(** A pattern of literal characters parses to those characters. *)
Lemma parse_literal (q : string) :
  Forall (fun c => is_literal c = true) (list_ascii_of_string q) ->
  parse_pattern q = Some (map Lit (list_ascii_of_string q)).
Proof.
  induction q as [|c q IH]; intros H; [reflexivity|].
  cbn [list_ascii_of_string] in H. inversion H as [|? ? Hc Hq]; subst.
  cbn [parse_pattern list_ascii_of_string map].
  rewrite (is_literal_not_dot c Hc), Hc, (IH Hq). reflexivity.
Qed.

Lemma match_here_literal (ql s : list ascii) :
  match_here (map Lit ql) s = true <->
  exists post, map lower_char s = map lower_char ql ++ post.
Proof.
  revert s. induction ql as [|c ql IH]; intros s.
  - simpl. split; [intros _; now eexists|reflexivity].
  - destruct s as [|d s]; cbn [map match_here app].
    + split; [discriminate|intros (post & H); discriminate].
    + rewrite andb_true_iff, IH. cbn [atom_matches]. split.
      * intros [Hc (post & Hs)]. apply Ascii.eqb_eq in Hc.
        exists post. now rewrite Hc, Hs.
      * intros (post & H). inversion H as [[Hc Hs]]. split.
        -- apply Ascii.eqb_eq. now rewrite Hc.
        -- now exists post.
Qed.

Lemma search_spec (r : list atom) (s : list ascii) :
  search r s = true <-> exists pre rest, s = pre ++ rest /\ match_here r rest = true.
Proof.
  induction s as [|a s IH]; cbn [search]; rewrite orb_true_iff.
  - split.
    + intros [H|H]; [|discriminate]. now exists [], [].
    + intros (pre & rest & Hs & H). left.
      destruct pre; destruct rest; try discriminate. exact H.
  - rewrite IH. split.
    + intros [H|(pre & rest & Hs & H)].
      * now exists [], (a :: s).
      * exists (a :: pre), rest. now rewrite Hs.
    + intros (pre & rest & Hs & H). destruct pre as [|b pre].
      * left. simpl in Hs. now rewrite Hs.
      * right. inversion Hs. now exists pre, rest.
Qed.

(** Searching for a string of literals is the substring test, letter case
    ignored. *)
Lemma search_literal (q s : string) :
  search (map Lit (list_ascii_of_string q)) (list_ascii_of_string s) = true <->
  ci_substring q s.
Proof.
  unfold ci_substring, lower. rewrite search_spec. split.
  - intros (pre & rest & Hs & H). apply match_here_literal in H.
    destruct H as (post & Hpost).
    exists (map lower_char pre), post. now rewrite Hs, map_app, Hpost.
  - intros (pre & post & H).
    apply map_eq_app in H. destruct H as (pre' & rest & Hs & _ & Hrest).
    exists pre', rest. split; [exact Hs|].
    apply match_here_literal. now exists post.
Qed.

(** The query [B.ue] selects the Blue Shirt, whose name does not contain
    it; and the query [ues] does not select the Blue Shirt, in whose name a
    space stands between [ue] and [S]. *)
Lemma name_filter_not_substring :
  ~ name_filter_is_substring no_engine "B.ue" blue_shirt /\
  ~ selects no_engine (Some "ues") None blue_shirt.
Proof.
  split.
  - intros [H _].
    assert (Hsel : selects no_engine (Some "B.ue") None blue_shirt).
    { eexists. split; reflexivity. }
    apply H in Hsel. apply search_literal in Hsel. vm_compute in Hsel. discriminate.
  - intros (f & Hf & Hp). vm_compute in Hf. inversion Hf; subst f.
    vm_compute in Hp. discriminate.
Qed.

(** C4, as the store has it. The name parameter is a regular expression,
    searched for in the name with letter case ignored. For every query made
    only of literal characters (printable ASCII characters other than the
    metacharacters), the empty query included, and every product whose name
    is made of ASCII characters, the name filter selects the product exactly
    when the query occurs in its name, the case of the letters [A] to [Z]
    ignored; so the Blue Shirt is selected by [blue], [Shirt] and [ue s], and
    not by [ues]. *)
Theorem name_filter_literal (pcre_i : string -> option (string -> bool))
    (query : string) (p : Product) :
  Forall (fun c => is_literal c = true) (list_ascii_of_string query) ->
  is_ascii_string (name p) = true ->
  (selects pcre_i (Some query) None p <-> ci_substring query (name p)).
Proof.
  intros Hlit Hascii. rewrite selects_cases. destruct query as [|c q].
  - cbn [truthy]. split; [|tauto]. intros _. exists [], (lower (name p)). reflexivity.
  - cbn [truthy]. unfold regex_i. rewrite (parse_literal _ Hlit), <- search_literal.
    split.
    + intros [(m & Hm & H) _]. inversion Hm; subst m. now rewrite Hascii in H.
    + intros H. split; [|exact I]. eexists. split; [reflexivity|].
      cbv beta. now rewrite Hascii.
Qed.

Lemma name_filter_literal_witness :
  selects no_engine (Some "blue") None blue_shirt /\
  selects no_engine (Some "Shirt") None blue_shirt /\
  selects no_engine (Some "ue s") None blue_shirt /\
  ~ selects no_engine (Some "ues") None blue_shirt.
Proof.
  assert (Hlit : forall q,
             forallb is_literal (list_ascii_of_string q) = true ->
             Forall (fun c => is_literal c = true) (list_ascii_of_string q)).
  { intros q H. apply Forall_forall. now apply forallb_forall. }
  repeat split.
  - apply (name_filter_literal no_engine "blue" blue_shirt (Hlit "blue" eq_refl) eq_refl).
    now exists [], (lower " Shirt").
  - apply (name_filter_literal no_engine "Shirt" blue_shirt (Hlit "Shirt" eq_refl) eq_refl).
    now exists (lower "Blue "), [].
  - apply (name_filter_literal no_engine "ue s" blue_shirt (Hlit "ue s" eq_refl) eq_refl).
    now exists (lower "Bl"), (lower "hirt").
  - intros H.
    apply (name_filter_literal no_engine "ues" blue_shirt (Hlit "ues" eq_refl) eq_refl) in H.
    apply search_literal in H. vm_compute in H. discriminate.
Defined.

(** ** POST /products *)

(** [POST /products], call by call. *)
Lemma post_products_run (product : ProductCreate) (w : World) :
  post_products product w =
  if fails w
  then (error_response 500 "store failure", issued (ProductsInsertOne product) w)
  else ({| status := 201; body := JDict [("id", JStr (str_oid (next_oid w)))] |},
        {| products_collection :=
             products_collection w ++ [product_of_doc (next_oid w) product];
           orders_collection := orders_collection w;
           next_oid := N.succ (next_oid w);
           clock := clock w;
           faults := tl (faults w);
           calls := calls w ++ [ProductsInsertOne product] |}).
Proof.
  unfold post_products, serve, create_product, try_except, bind,
    products_insert_one, store_call, ret, raise.
  destruct (fails w); reflexivity.
Qed.

(** X1. [POST /products] stores all or nothing. It answers 201 or 500 and
    never touches the orders. With 201 the body is the id of the new
    document, and the products are the old ones followed by exactly one
    document, which carries that id and the name, price and sizes of the
    request. With 500 the products are what they were. It answers 201
    exactly when its one store call does not fail. *)
Theorem create_product_stores_one (product : ProductCreate) (w w' : World) (r : Response) :
  post_products product w = (r, w') ->
  orders_collection w' = orders_collection w /\
  calls w' = calls w ++ [ProductsInsertOne product] /\
  (status r = 201 <-> fails w = false) /\
  (status r = 201 ->
   body r = JDict [("id", JStr (str_oid (next_oid w)))] /\
   products_collection w' =
     products_collection w ++
       [{| product_id := next_oid w; name := pc_name product;
           price := pc_price product; sizes := pc_sizes product |}]) /\
  (status r <> 201 ->
   (exists detail, r = error_response 500 detail) /\
   products_collection w' = products_collection w /\
   next_oid w' = next_oid w).
Proof.
  rewrite post_products_run. destruct (fails w); intros H; inversion H; subst r w'; simpl.
  - repeat split; try discriminate; try congruence. now eexists.
  - repeat split; congruence.
Qed.

Lemma create_product_stores_one_witness :
  products_collection tee_world =
    [{| product_id := 1%N; name := "Tee"; price := Float.round_int 20;
        sizes := [{| size := "M"; quantity := 5 |}] |}] /\
  body (fst (post_products tee empty_world)) = JDict [("id", JStr P1)].
Proof.
  destruct (create_product_stores_one tee empty_world _ _
              (surjective_pairing (post_products tee empty_world)))
    as (_ & _ & _ & H & _).
  destruct (H eq_refl) as [Hb Hp]. split; [exact Hp|exact Hb].
Defined.

(** ** Outcomes of the list requests *)

Lemma data_of_list_body (code : Z) (data : list json) (total_count limit offset : Z) :
  data_of {| status := code; body := list_body data total_count limit offset |} = data.
Proof. reflexivity. Qed.



(** X4. A list request answers 200, 422 or 500, nothing else. It answers
    422 exactly when [limit] is below 1 or [offset] below 0. The product
    list answers 200 exactly when the parameters are in range, its two store
    calls do not fail, the store accepts the filter, which it does whenever
    no name is given, and every price on the page read is finite; the order
    list answers 200 exactly when the parameters are in range, its two store
    calls do not fail and every total on the page read is finite. A response
    other than 200 carries no data. *)
Theorem list_requests_outcome (pcre_i : string -> option (string -> bool))
    (qname qsize : option string) (user_id : string) (limit offset : Z) (w : World) :
  let rp := fst (get_products pcre_i qname qsize limit offset w) in
  let ro := fst (get_orders user_id limit offset w) in
  (status rp = 200 \/ status rp = 422 \/ status rp = 500) /\
  (status ro = 200 \/ status ro = 422 \/ status ro = 500) /\
  (status rp = 422 <-> limit < 1 \/ offset < 0) /\
  (status ro = 422 <-> limit < 1 \/ offset < 0) /\
  (status rp = 200 <->
   1 <= limit /\ 0 <= offset /\ no_fault 2 w /\
   exists f,
     compile_filter pcre_i (build_query_filter qname qsize) = Some f /\
     prices_render (product_page f limit offset w) = true) /\
  (status ro = 200 <->
   1 <= limit /\ 0 <= offset /\ no_fault 2 w /\
   totals_render (order_page user_id limit offset w) = true) /\
  (truthy qname = None ->
   exists f, compile_filter pcre_i (build_query_filter qname qsize) = Some f) /\
  (status rp <> 200 -> data_of rp = []) /\
  (status ro <> 200 -> data_of ro = []).
Proof.
  cbv zeta.
  split; [|split; [|split; [|split; [|split; [|split; [|split; [|split]]]]]]].
  - rewrite get_products_run. cbv zeta.
    destruct (query_ge "limit" limit 1 ++ query_ge "offset" offset 0); [|now right; left].
    destruct (fails w); [now right; right|].
    destruct (compile_filter pcre_i (build_query_filter qname qsize)); [|now right; right].
    destruct (fails _); [now right; right|].
    destruct (prices_render _); [now left|now right; right].
  - rewrite get_orders_run. cbv zeta.
    destruct (query_ge "limit" limit 1 ++ query_ge "offset" offset 0); [|now right; left].
    destruct (fails w); [now right; right|].
    destruct (fails _); [now right; right|].
    destruct (totals_render _); [now left|now right; right].
  - rewrite get_products_run. cbv zeta.
    pose proof (query_in_range limit offset) as Hq.
    destruct (query_ge "limit" limit 1 ++ query_ge "offset" offset 0) as [|e es].
    + destruct (proj1 Hq eq_refl) as [Hl Ho]. split; [|lia].
      destruct (fails w); [discriminate|].
      destruct (compile_filter pcre_i (build_query_filter qname qsize)); [|discriminate].
      destruct (fails _); [discriminate|]. destruct (prices_render _); discriminate.
    + split; [|reflexivity]. intros _.
      destruct (Z.lt_ge_cases limit 1) as [H|Hl]; [now left|].
      destruct (Z.lt_ge_cases offset 0) as [H|Ho]; [now right|].
      discriminate (proj2 Hq (conj Hl Ho)).
  - rewrite get_orders_run. cbv zeta.
    pose proof (query_in_range limit offset) as Hq.
    destruct (query_ge "limit" limit 1 ++ query_ge "offset" offset 0) as [|e es].
    + destruct (proj1 Hq eq_refl) as [Hl Ho]. split; [|lia].
      destruct (fails w); [discriminate|].
      destruct (fails _); [discriminate|]. destruct (totals_render _); discriminate.
    + split; [|reflexivity]. intros _.
      destruct (Z.lt_ge_cases limit 1) as [H|Hl]; [now left|].
      destruct (Z.lt_ge_cases offset 0) as [H|Ho]; [now right|].
      discriminate (proj2 Hq (conj Hl Ho)).
  - apply get_products_200.
  - apply get_orders_200.
  - intros Hn. unfold compile_filter, build_query_filter. cbn [qf_name]. rewrite Hn.
    now eexists.
  - rewrite get_products_run. cbv zeta.
    destruct (query_ge "limit" limit 1 ++ query_ge "offset" offset 0); [|reflexivity].
    destruct (fails w); [reflexivity|].
    destruct (compile_filter pcre_i (build_query_filter qname qsize)); [|reflexivity].
    destruct (fails _); [reflexivity|].
    destruct (prices_render _); [|reflexivity]. intros H. now destruct H.
  - rewrite get_orders_run. cbv zeta.
    destruct (query_ge "limit" limit 1 ++ query_ge "offset" offset 0); [|reflexivity].
    destruct (fails w); [reflexivity|].
    destruct (fails _); [reflexivity|].
    destruct (totals_render _); [|reflexivity]. intros H. now destruct H.
Qed.

(** A limit of 0 is answered 422; in a store that holds a product priced
    [inf], the product list is answered 500. *)
Lemma list_requests_outcome_witness :
  status (fst (get_products no_engine None None 0 0 tee_world)) = 422 /\
  status (fst (get_products no_engine None None 10 0
                 (snd (post_products priceless empty_world)))) = 500.
Proof.
  split.
  - apply (proj1 (proj2 (proj2 (list_requests_outcome no_engine None None "u1" 0 0 tee_world)))).
    left. lia.
  - pose proof (list_requests_outcome no_engine None None "u1" 10 0
                  (snd (post_products priceless empty_world)))
      as (Hcases & _ & H422 & _ & H200 & _).
    destruct Hcases as [H|[H|H]]; [| |exact H].
    + apply H200 in H. destruct H as (_ & _ & _ & f & Hf & Hr).
      vm_compute in Hf. inversion Hf; subst f. vm_compute in Hr. discriminate Hr.
    + apply H422 in H. lia.
Defined.

(** ** Pages *)

Lemma insert_sorted_length {A} (key : A -> N) (x : A) (l : list A) :
  List.length (insert_sorted key x l) = S (List.length l).
Proof.
  induction l as [|y l IH]; simpl; [reflexivity|].
  destruct (key x <=? key y)%N; simpl; [reflexivity|now rewrite IH].
Qed.

Lemma sort_by_id_length {A} (key : A -> N) (l : list A) :
  List.length (sort_by_id key l) = List.length l.
Proof.
  induction l as [|x l IH]; simpl; [reflexivity|].
  unfold sort_by_id in *. simpl. now rewrite insert_sorted_length, IH.
Qed.

Lemma insert_sorted_in {A} (key : A -> N) (x y : A) (l : list A) :
  In y (insert_sorted key x l) <-> y = x \/ In y l.
Proof.
  induction l as [|z l IH]; simpl; [intuition|].
  destruct (key x <=? key z)%N; simpl; [intuition|]. rewrite IH. intuition.
Qed.

Lemma sort_by_id_in {A} (key : A -> N) (y : A) (l : list A) :
  In y (sort_by_id key l) <-> In y l.
Proof.
  induction l as [|x l IH]; [reflexivity|].
  unfold sort_by_id in *. simpl. rewrite insert_sorted_in, IH. intuition.
Qed.

Lemma firstn_in {A} (n : nat) (x : A) (l : list A) : In x (firstn n l) -> In x l.
Proof.
  revert l. induction n as [|n IH]; intros [|y l]; simpl; try tauto.
  intros [H|H]; [now left|right; now apply IH].
Qed.

Lemma skipn_in {A} (n : nat) (x : A) (l : list A) : In x (skipn n l) -> In x l.
Proof.
  revert l. induction n as [|n IH]; intros [|y l]; simpl; try tauto.
  intros H. right. now apply IH.
Qed.

Lemma page_of_in {A} (offset limit : Z) (x : A) (l : list A) :
  In x (page_of offset limit l) -> In x l.
Proof. unfold page_of. intros H. eapply skipn_in, firstn_in, H. Qed.

Lemma page_of_length {A} (offset limit : Z) (l : list A) :
  0 <= limit -> 0 <= offset ->
  Z.of_nat (List.length (page_of offset limit l)) =
    Z.min limit (Z.max 0 (Z.of_nat (List.length l) - offset)).
Proof.
  intros Hl Ho. unfold page_of. rewrite length_firstn, length_skipn. lia.
Qed.

Lemma firstn_then_more {A} (a b : nat) (l : list A) :
  firstn a l ++ firstn b (skipn a l) = firstn (a + b) l.
Proof.
  revert l. induction a as [|a IH]; intros l; [reflexivity|].
  destruct l as [|x l]; simpl; [now destruct b|]. now rewrite IH.
Qed.



(** The data of a product list answered 200. *)
Lemma get_products_data (pcre_i : string -> option (string -> bool))
    (qname qsize : option string) (limit offset : Z) (w : World) (f : Product -> bool) :
  compile_filter pcre_i (build_query_filter qname qsize) = Some f ->
  status (fst (get_products pcre_i qname qsize limit offset w)) = 200 ->
  data_of (fst (get_products pcre_i qname qsize limit offset w)) =
    map product_helper (product_page f limit offset w).
Proof.
  intros Hf Hs. rewrite (get_products_answer _ _ _ _ _ _ f Hf Hs). apply data_of_list_body.
Qed.

(** The data of an order list answered 200. *)
Lemma get_orders_data (user_id : string) (limit offset : Z) (w : World) :
  status (fst (get_orders user_id limit offset w)) = 200 ->
  data_of (fst (get_orders user_id limit offset w)) =
    map order_helper (order_page user_id limit offset w).
Proof.
  intros Hs. rewrite (get_orders_answer _ _ _ _ Hs). apply data_of_list_body.
Qed.

(** X5. The product list returns one page of selected products. In a
    response answered 200, the number of items in [data] is the smaller of
    [limit] and of what is left of the selected products after [offset] (none
    when [offset] is at or past their number); the page is full whenever a
    next page is announced; and every item is [product_helper] of a stored
    product that the filter selects and whose price is finite. *)
Theorem product_page_content (pcre_i : string -> option (string -> bool))
    (qname qsize : option string) (limit offset : Z) (w : World) :
  let r := fst (get_products pcre_i qname qsize limit offset w) in
  status r = 200 ->
  exists f,
    compile_filter pcre_i (build_query_filter qname qsize) = Some f /\
    let data := data_of r in
    let total_count := Z.of_nat (List.length (filter f (products_collection w))) in
    Z.of_nat (List.length data) = Z.min limit (Z.max 0 (total_count - offset)) /\
    (total_count <= offset -> data = []) /\
    (offset + limit < total_count -> Z.of_nat (List.length data) = limit) /\
    Forall (fun item =>
              exists p,
                In p (products_collection w) /\ f p = true /\
                Float.is_finite (price p) = true /\ item = product_helper p)
      data.
Proof.
  cbv zeta. intros Hs.
  destruct (proj1 (get_products_200 _ _ _ _ _ _) Hs) as (Hl & Ho & _ & f & Hf & Hr).
  exists f. split; [exact Hf|].
  rewrite (get_products_data _ _ _ _ _ _ f Hf Hs).
  assert (Hlen : Z.of_nat (List.length (map product_helper (product_page f limit offset w))) =
                 Z.min limit
                   (Z.max 0 (Z.of_nat (List.length (filter f (products_collection w))) - offset))).
  { unfold product_page.
    rewrite length_map, page_of_length, sort_by_id_length by lia. reflexivity. }
  split; [exact Hlen|]. split; [|split].
  - intros Hpast. apply length_zero_iff_nil. lia.
  - intros Hnext. lia.
  - apply Forall_forall. intros item Hin. apply in_map_iff in Hin.
    destruct Hin as (p & <- & Hp).
    unfold prices_render in Hr. rewrite forallb_forall in Hr. pose proof (Hr p Hp) as Hfin.
    apply page_of_in, sort_by_id_in, filter_In in Hp.
    exists p. tauto.
Qed.

Lemma product_page_content_witness :
  List.length (data_of (fst (get_products no_engine (Some "e") None 1 1 three_products_world)))
    = 1%nat.
Proof.
  destruct (product_page_content no_engine (Some "e") None 1 1 three_products_world eq_refl)
    as (f & Hf & Hlen & _).
  vm_compute in Hf. inversion Hf; subst f.
  apply Nat2Z.inj. rewrite Hlen. reflexivity.
Defined.

(** X6. The order list returns one page of the user's own orders. In a
    response answered 200, the number of items in [data] is the smaller of
    [limit] and of what is left of that user's orders after [offset]; every
    item is [order_helper] of a stored order of that very user, whose total
    is finite, and shows its [id], [items] and [total] and neither the
    [userId] nor the creation time. *)
Theorem order_page_content (user_id : string) (limit offset : Z) (w : World) :
  let r := fst (get_orders user_id limit offset w) in
  status r = 200 ->
  let data := data_of r in
  Z.of_nat (List.length data) = Z.min limit (Z.max 0 (count_orders user_id w - offset)) /\
  Forall (fun item =>
            exists o,
              In o (orders_collection w) /\ order_userId o = user_id /\
              Float.is_finite (total o) = true /\
              item = order_helper o /\
              keys item = ["id"; "items"; "total"] /\
              get "total" item = Some (JFloat (total o)) /\
              get "userId" item = None /\ get "createdAt" item = None)
    data.
Proof.
  cbv zeta. intros Hs.
  destruct (proj1 (get_orders_200 _ _ _ _) Hs) as (Hl & Ho & _ & Hr).
  rewrite (get_orders_data _ _ _ _ Hs). split.
  - unfold order_page, orders_of, count_orders.
    rewrite length_map, page_of_length, sort_by_id_length by lia. reflexivity.
  - apply Forall_forall. intros item Hin. apply in_map_iff in Hin.
    destruct Hin as (o & <- & Hin).
    unfold totals_render in Hr. rewrite forallb_forall in Hr. pose proof (Hr o Hin) as Hfin.
    apply page_of_in, sort_by_id_in, filter_In in Hin.
    destruct Hin as [Hin Hu]. apply String.eqb_eq in Hu.
    exists o. repeat split; auto.
Qed.

(** After the order of two Tees by [u1], the list of [u1] shows that one
    order, with total [40.0]. *)
Lemma order_page_content_witness :
  exists item,
    data_of (fst (get_orders "u1" 10 0
                    (snd (post_orders {| userId := "u1";
                                         items := [{| productId := P1; qty := 2 |}] |}
                            tee_world)))) = [item] /\
    get "total" item = Some (JFloat (Float.round_int 40)).
Proof.
  destruct (order_page_content "u1" 10 0
              (snd (post_orders {| userId := "u1";
                                   items := [{| productId := P1; qty := 2 |}] |} tee_world))
              eq_refl) as [_ Hall].
  remember (data_of (fst (get_orders "u1" 10 0
                            (snd (post_orders {| userId := "u1";
                                                 items := [{| productId := P1; qty := 2 |}] |}
                                    tee_world))))) as data eqn:Hdata.
  vm_compute in Hdata. subst data.
  inversion Hall as [|item rest (o & _ & _ & _ & _ & _ & Htotal & _) _]; subst.
  eexists. split; [reflexivity|]. reflexivity.
Defined.



(** ** Accepted and rejected orders *)

Lemma all_false_more (n : nat) (fs : list bool) :
  Forall (fun b => b = false) (firstn n fs) ->
  hd false (skipn n fs) = false ->
  Forall (fun b => b = false) (firstn (S n) fs).
Proof.
  revert fs. induction n as [|n IH]; intros [|b fs] H Hh; try constructor.
  - exact Hh.
  - constructor.
  - cbn [firstn] in H. now inversion H.
  - apply IH; [cbn [firstn] in H; now inversion H|exact Hh].
Qed.

Lemma resolved_length (ps : list Product) (items : list OrderItem) (found : list Product) :
  map (resolve ps) items = map Some found -> List.length found = List.length items.
Proof. intros H. erewrite <- (length_map Some), <- H. apply length_map. Qed.

(** A request that is not accepted stores no order. *)
Lemma post_orders_rejected (order : OrderCreate) (w w' : World) (r : Response) :
  post_orders order w = (r, w') ->
  status r <> 201 ->
  orders_collection w' = orders_collection w.
Proof.
  intros H Hs. rewrite post_orders_run in H.
  destruct (order_loop_run (items order) Float.zero [] w)
    as [(ps & Hps & Hcs & Hn & Hloop) | (pre & it & post & ps & e & w1 & Hit & Hps & Hn & Hbody & Hloop)];
    rewrite Hloop in H.
  - cbv zeta in H.
    destruct (fails (looked_up (item_ids (items order)) w)); inversion H; subst r w'.
    + reflexivity.
    + now destruct Hs.
  - apply order_loop_body_raises in Hbody.
    assert (Hw : orders_collection w1 = orders_collection w).
    { destruct Hbody as [(_ & Hw & _) | (id & _ & Hw & _)]; subst w1; reflexivity. }
    destruct e; inversion H; subst; exact Hw.
Qed.

(** X9. When an order is accepted. [POST /orders] answers 201 exactly when
    every item of the request resolves to a stored product, every quantity
    converts to a float, and none of its store calls fails: one lookup for
    each item and the insert. *)
Theorem create_order_accepted_iff (order : OrderCreate) (w : World) :
  status (fst (post_orders order w)) = 201 <->
  (exists found, map (resolve (products_collection w)) (items order) = map Some found) /\
  Forall convertible (items order) /\
  no_fault (S (List.length (items order))) w.
Proof.
  split.
  - rewrite post_orders_run.
    destruct (order_loop_run (items order) Float.zero [] w)
      as [(ps & Hps & Hcs & Hn & Hloop) | (pre & it & post & ps & e & w1 & Hit & Hps & Hn & Hbody & Hloop)];
      rewrite Hloop.
    + cbv zeta.
      destruct (fails (looked_up (item_ids (items order)) w)) eqn:Hf; [discriminate|].
      intros _. split; [now exists ps|]. split; [exact Hcs|].
      apply all_false_more; [exact Hn|].
      unfold fails, looked_up in Hf. simpl in Hf.
      now rewrite (proj2 (resolve_ids _ _ _ Hps)) in Hf.
    + apply order_loop_body_raises in Hbody.
      destruct Hbody as [(_ & _ & He) | (id & _ & _ & [(He & _) | [(He & _) | (He & _)]])];
        subst e; discriminate.
  - intros [[found Hres] [Hconv Hnf]]. now rewrite (post_orders_accepts _ found).
Qed.

Lemma create_order_accepted_iff_witness :
  status (fst (post_orders {| userId := "u1"; items := [{| productId := P1; qty := 2 |}] |}
                 tee_world)) = 201.
Proof.
  apply (proj2 (create_order_accepted_iff
                  {| userId := "u1"; items := [{| productId := P1; qty := 2 |}] |} tee_world)).
  split; [exists (products_collection tee_world); reflexivity|]. split.
  - repeat constructor. unfold convertible. vm_compute. discriminate.
  - repeat constructor.
Defined.

Lemma order_lines_of_request (ps : list Product) (items : list OrderItem)
    (found : list Product) :
  map (resolve ps) items = map Some found ->
  let lines := map (fun x => order_line (fst x) (snd x)) (combine found items) in
  map pd_id lines = map productId items /\
  map line_qty lines = map qty items /\
  map pd_name lines = map name found.
Proof.
  revert found. induction items as [|item items IH]; intros [|p found] H;
    try discriminate; [repeat split|].
  simpl in H. inversion H as [[Hfirst Hrest]]. destruct (IH _ Hrest) as (H1 & H2 & H3).
  cbv zeta in *. simpl. now rewrite H1, H2, H3.
Qed.

(** X10. An accepted order records the request item by item. The stored
    order has the id sent back in the response, the [userId] of the request
    and the time of the request; its lines are as many as the items and in
    the same order; each line keeps the [productId] as the request spelled it
    and the [qty] as given, and takes its name from the stored product the
    item resolves to. *)
Theorem accepted_order_mirrors_request (order : OrderCreate) (w w' : World) (r : Response) :
  post_orders order w = (r, w') ->
  status r = 201 ->
  exists found o,
    map (resolve (products_collection w)) (items order) = map Some found /\
    orders_collection w' = orders_collection w ++ [o] /\
    body r = JDict [("id", JStr (str_oid (order_id o)))] /\
    order_userId o = userId order /\
    createdAt o = clock w /\
    List.length (order_items o) = List.length (items order) /\
    map pd_id (order_items o) = map productId (items order) /\
    map line_qty (order_items o) = map qty (items order) /\
    map pd_name (order_items o) = map name found.
Proof.
  intros H Hs.
  destruct (post_orders_accepted _ _ _ _ H Hs) as (found & Hres & _ & Hr & Hw).
  subst r w'. exists found. eexists. split; [exact Hres|]. split; [reflexivity|].
  destruct (order_lines_of_request _ _ _ Hres) as (H1 & H2 & H3).
  cbn [order_of_doc order_doc order_id order_userId createdAt order_items
         doc_userId doc_items doc_createdAt body].
  repeat split; auto.
  rewrite length_map, length_combine, (resolved_length _ _ _ Hres). apply Nat.min_id.
Qed.

Lemma accepted_order_mirrors_request_witness :
  exists o,
    orders_collection
      (snd (post_orders {| userId := "u1";
                           items := [{| productId := "00000000000000000000000A"; qty := 2 |}] |}
              (snd (post_products tee {| products_collection := []; orders_collection := [];
                                         next_oid := 10%N; clock := 7; faults := [];
                                         calls := [] |})))) = [o] /\
    map pd_id (order_items o) = ["00000000000000000000000A"] /\
    createdAt o = 7.
Proof.
  destruct (accepted_order_mirrors_request
              {| userId := "u1";
                 items := [{| productId := "00000000000000000000000A"; qty := 2 |}] |}
              (snd (post_products tee {| products_collection := []; orders_collection := [];
                                         next_oid := 10%N; clock := 7; faults := [];
                                         calls := [] |}))
              _ _ (surjective_pairing _) eq_refl)
    as (found & o & _ & Ho & _ & _ & Hc & _ & Hid & _).
  exists o. split; [exact Ho|]. split; [exact Hid|exact Hc].
Defined.

(** X11. Storing an order changes one count by one. After a request that is
    accepted, the number of orders of the requesting user is one more and
    the number of orders of every other user is what it was; after a request
    that is not accepted, the number of orders of every user is what it
    was. *)
Theorem order_counts (order : OrderCreate) (w w' : World) (r : Response) :
  post_orders order w = (r, w') ->
  (status r = 201 ->
   count_orders (userId order) w' = count_orders (userId order) w + 1 /\
   forall user_id, user_id <> userId order ->
     count_orders user_id w' = count_orders user_id w) /\
  (status r <> 201 ->
   forall user_id, count_orders user_id w' = count_orders user_id w).
Proof.
  intros H. split.
  - intros Hs. destruct (post_orders_accepted _ _ _ _ H Hs) as (found & _ & _ & _ & Hw).
    subst w'. unfold count_orders. cbn [orders_collection with_order looked_up].
    split.
    + rewrite filter_app, length_app. cbn [filter order_userId order_of_doc order_doc doc_userId].
      rewrite String.eqb_refl. simpl List.length. lia.
    + intros user_id Hne.
      rewrite filter_app, length_app. cbn [filter order_userId order_of_doc order_doc doc_userId].
      destruct (String.eqb_spec (userId order) user_id) as [Heq|_]; [now destruct Hne|].
      simpl List.length. lia.
  - intros Hs user_id. unfold count_orders.
    now rewrite (post_orders_rejected _ _ _ _ H Hs).
Qed.

Lemma order_counts_witness :
  count_orders "u1" (snd (post_orders missing_then_invalid tee_world)) = 0 /\
  count_orders "u1"
    (snd (post_orders {| userId := "u1"; items := [{| productId := P1; qty := 2 |}] |}
            tee_world)) = 1.
Proof.
  split.
  - refine (proj2 (order_counts missing_then_invalid tee_world _ _ (surjective_pairing _))
              _ "u1").
    vm_compute. discriminate.
  - exact (proj1 (proj1 (order_counts
                           {| userId := "u1"; items := [{| productId := P1; qty := 2 |}] |}
                           tee_world _ _ (surjective_pairing _)) eq_refl)).
Defined.

(** ** From a created product to an order for it *)

Lemma hex_value_char (d : N) : (d < 16)%N -> hex_value (hex_char d) = Some d.
Proof.
  intros Hd. rewrite <- (N2Nat.id d).
  assert (Hn : (N.to_nat d < 16)%nat) by lia.
  revert Hn. generalize (N.to_nat d). intros n Hn.
  do 16 (destruct n as [|n]; [reflexivity|]). lia.
Qed.

Lemma hex_char_no_space (d : N) : (d < 16)%N -> is_space (hex_char d) = false.
Proof.
  intros Hd. rewrite <- (N2Nat.id d).
  assert (Hn : (N.to_nat d < 16)%nat) by lia.
  revert Hn. generalize (N.to_nat d). intros n Hn.
  do 16 (destruct n as [|n]; [reflexivity|]). lia.
Qed.

Lemma hex_string_length (k : nat) (n : N) (acc : string) :
  String.length (hex_string k n acc) = (k + String.length acc)%nat.
Proof.
  revert n acc. induction k as [|k IH]; intros n acc; [reflexivity|].
  simpl. rewrite IH. simpl. lia.
Qed.

(** Two digits written in front of a string read back as one byte in front
    of its bytes. *)
Lemma fromhex_two_digits (top bot : N) (s : string) (bytes : list N) :
  (top < 16)%N -> (bot < 16)%N ->
  fromhex s = Some bytes ->
  fromhex (String (hex_char top) (String (hex_char bot) s)) =
    Some ((16 * top + bot)%N :: bytes).
Proof.
  intros Ht Hb Hs. cbn [fromhex].
  now rewrite (hex_char_no_space _ Ht), (hex_value_char _ Ht), (hex_value_char _ Hb), Hs.
Qed.

Lemma hex_string_two (k : nat) (n : N) (acc : string) :
  hex_string (S (S k)) n acc =
  hex_string k (n / 256)
    (String (hex_char ((n / 16) mod 16)) (String (hex_char (n mod 16)) acc)).
Proof.
  cbn [hex_string]. f_equal. rewrite N.Div0.div_div. reflexivity.
Qed.

(** Reading back the [2 * k] digits written for [n] in front of [acc]: the
    bytes read are [k] bytes of value [n mod 256 ^ k] in front of the bytes of
    [acc]. *)
Lemma fromhex_hex_string (k : nat) (n : N) (acc : string) (bytes : list N) :
  fromhex acc = Some bytes ->
  exists front,
    fromhex (hex_string (2 * k) n acc) = Some (front ++ bytes) /\
    List.length front = k /\
    forall a, fold_left (fun acc b => (256 * acc + b)%N) front a =
              (a * 256 ^ N.of_nat k + n mod 256 ^ N.of_nat k)%N.
Proof.
  revert n acc bytes. induction k as [|k IH]; intros n acc bytes Hacc.
  - exists []. split; [exact Hacc|]. split; [reflexivity|].
    intros a. simpl. rewrite N.mod_1_r. lia.
  - replace (2 * S k)%nat with (S (S (2 * k))) by lia. rewrite hex_string_two.
    assert (Htop : ((n / 16) mod 16 < 16)%N) by (apply N.mod_lt; discriminate).
    assert (Hbot : (n mod 16 < 16)%N) by (apply N.mod_lt; discriminate).
    destruct (IH (n / 256)%N _ _ (fromhex_two_digits _ _ _ _ Htop Hbot Hacc))
      as (front & Hfront & Hlen & Hval).
    exists (front ++ [(16 * ((n / 16) mod 16) + n mod 16)%N]).
    split; [now rewrite <- app_assoc|]. split; [rewrite length_app; simpl; lia|].
    intros a. rewrite fold_left_app, Hval. cbn [fold_left].
    rewrite Nat2N.inj_succ, N.pow_succ_r'.
    assert (Hbyte : (16 * ((n / 16) mod 16) + n mod 16 = n mod 256)%N).
    { change 256%N with (16 * 16)%N. rewrite (N.Div0.mod_mul_r n 16 16). lia. }
    rewrite Hbyte.
    rewrite (N.mul_comm 256 (256 ^ N.of_nat k)), (N.Div0.mod_mul_r n (256 ^ N.of_nat k) 256).
    pose proof (N.Div0.div_mod n 256) as Hn256.
    assert (Hswap : ((n / 256) mod 256 ^ N.of_nat k * 256 + n mod 256 =
                     n mod 256 ^ N.of_nat k + 256 ^ N.of_nat k * ((n / 256 ^ N.of_nat k) mod 256))%N).
    { rewrite <- (N.Div0.mod_mul_r n (256 ^ N.of_nat k) 256).
      rewrite (N.mul_comm (256 ^ N.of_nat k) 256).
      rewrite (N.Div0.mod_mul_r n 256 (256 ^ N.of_nat k)). lia. }
    lia.
Qed.

(** An id written as a string reads back as an identifier of that id. *)
Lemma ObjectId_str_oid (id : oid) :
  (id < oid_limit)%N -> exists x, ObjectId (str_oid id) = Some x /\ is_id x id = true.
Proof.
  intros Hid. unfold ObjectId, str_oid.
  rewrite hex_string_length. simpl Nat.eqb. cbv iota.
  destruct (fromhex_hex_string 12 id "" [] eq_refl) as (front & Hfront & Hlen & Hval).
  exists front. change 24%nat with (2 * 12)%nat. rewrite Hfront, app_nil_r.
  split; [reflexivity|]. unfold is_id, bytes_value. rewrite Hlen, Hval.
  rewrite N.mul_0_l, N.add_0_l, N.mod_small by exact Hid.
  now rewrite N.eqb_refl.
Qed.

Lemma find_by_id_fresh (x : object_id) (id : oid) (ps : list Product) (p : Product) :
  Forall (fun y => (y < id)%N) (map product_id ps) ->
  product_id p = id ->
  is_id x id = true ->
  find_by_id x (ps ++ [p]) = Some p.
Proof.
  intros Hps Hp Hx. induction ps as [|q qs IH]; simpl.
  - subst id. now rewrite Hx.
  - simpl in Hps. inversion Hps as [|? ? Hq Hqs]; subst.
    destruct (is_id x (product_id q)) eqn:Hxq; [|now apply IH].
    unfold is_id in Hx, Hxq.
    apply andb_true_iff in Hx. destruct Hx as [_ Hx]. apply N.eqb_eq in Hx.
    apply andb_true_iff in Hxq. destruct Hxq as [_ Hxq]. apply N.eqb_eq in Hxq.
    lia.
Qed.

Lemma well_formed_empty : well_formed empty_world.
Proof. repeat split; constructor. Qed.

(** X12. A product just created can be ordered by the id sent back. In a
    store that holds its documents by increasing id below the next id, that
    next id fitting in 12 bytes: when [POST /products] and the two store
    calls of the order after it do not fail, the id string of the 201
    response is accepted by [POST /orders] as the [productId] of an item,
    for any quantity that converts to a float; the order is answered 201 and
    stored with one line, which names the product as it was created, keeps
    the id string and the quantity, and with the total [0.0 + price * qty]
    in floats. *)
Theorem created_product_can_be_ordered (product : ProductCreate) (user : string) (q : Z)
    (w : World) :
  well_formed w ->
  (next_oid w < oid_limit)%N ->
  no_fault 3 w ->
  Float.of_int q <> None ->
  let created := post_products product w in
  let id_string := str_oid (next_oid w) in
  let ordered :=
    post_orders {| userId := user; items := [{| productId := id_string; qty := q |}] |}
      (snd created) in
  fst created = {| status := 201; body := JDict [("id", JStr id_string)] |} /\
  status (fst ordered) = 201 /\
  exists o,
    orders_collection (snd ordered) = orders_collection w ++ [o] /\
    order_items o = [{| pd_name := pc_name product; pd_id := id_string; line_qty := q |}] /\
    total o = Float.add Float.zero (Float.mul (pc_price product) (Float.round_int q)).
Proof.
  intros [[_ Hbelow] _] Hlimit Hnf Hq. cbv zeta.
  destruct (no_fault_S _ _ (ProductsInsertOne product) Hnf) as [Hf Hnf2].
  rewrite post_products_run, Hf. cbn [fst snd].
  split; [reflexivity|].
  set (w1 := {| products_collection :=
                  products_collection w ++ [product_of_doc (next_oid w) product];
                orders_collection := orders_collection w;
                next_oid := N.succ (next_oid w);
                clock := clock w;
                faults := tl (faults w);
                calls := calls w ++ [ProductsInsertOne product] |}).
  assert (Hres : map (resolve (products_collection w1))
                   [{| productId := str_oid (next_oid w); qty := q |}] =
                 map Some [product_of_doc (next_oid w) product]).
  { cbn [map]. f_equal. unfold resolve. cbn [productId].
    destruct (ObjectId_str_oid _ Hlimit) as (x & Hx & Hid). rewrite Hx.
    subst w1. cbn [products_collection].
    now apply (find_by_id_fresh x (next_oid w)). }
  rewrite (post_orders_accepts
             {| userId := user;
                items := [{| productId := str_oid (next_oid w); qty := q |}] |}
             [product_of_doc (next_oid w) product] w1).
  - cbn [fst snd status]. split; [reflexivity|].
    eexists. split; [reflexivity|]. split; reflexivity.
  - exact Hres.
  - repeat constructor. exact Hq.
  - exact Hnf2.
Qed.

Lemma created_product_can_be_ordered_witness :
  exists o,
    orders_collection
      (snd (post_orders {| userId := "u1"; items := [{| productId := P1; qty := 2 |}] |}
              (snd (post_products tee empty_world)))) = [o] /\
    order_items o = [{| pd_name := "Tee"; pd_id := P1; line_qty := 2 |}] /\
    total o = Float.round_int 40.
Proof.
  assert (Hlimit : (next_oid empty_world < oid_limit)%N) by reflexivity.
  assert (Hnf : no_fault 3 empty_world) by constructor.
  assert (Hq : Float.of_int 2 <> None) by (vm_compute; discriminate).
  destruct (created_product_can_be_ordered tee "u1" 2 empty_world
              well_formed_empty Hlimit Hnf Hq) as (_ & _ & o & Ho & Hitems & Htotal).
  exists o. split; [exact Ho|]. split; [exact Hitems|]. rewrite Htotal. reflexivity.
Defined.

(** ** An accepted order in the user's list *)

(** X13. An accepted order shows up in the list of its user. After
    [POST /orders] has answered 201, a list request for the user of the
    order, from offset 0 and with a limit of at least the number of that
    user's orders, that is answered 200, returns all the orders of that user
    by id: those the user had before and the new one, one item more than
    before. The item of the new order has the id of the 201 response, and
    its total is the float sum of the lines of the request, which is
    finite. The list request is answered 200 when its two store calls do not
    fail and the totals of the user's orders are all finite. *)
Theorem accepted_order_is_listed (order : OrderCreate) (limit : Z) (w w' : World)
    (r : Response) :
  post_orders order w = (r, w') ->
  status r = 201 ->
  count_orders (userId order) w' <= limit ->
  (no_fault 2 w' ->
   totals_render (orders_of (userId order) w') = true ->
   status (fst (get_orders (userId order) limit 0 w')) = 200) /\
  (status (fst (get_orders (userId order) limit 0 w')) = 200 ->
   exists found o,
     map (resolve (products_collection w)) (items order) = map Some found /\
     orders_of (userId order) w' = orders_of (userId order) w ++ [o] /\
     data_of (fst (get_orders (userId order) limit 0 w')) =
       map order_helper (sort_by_id order_id (orders_of (userId order) w')) /\
     In (order_helper o) (data_of (fst (get_orders (userId order) limit 0 w'))) /\
     List.length (data_of (fst (get_orders (userId order) limit 0 w'))) =
       S (List.length (orders_of (userId order) w)) /\
     get "id" (order_helper o) = get "id" (body r) /\
     get "total" (order_helper o) =
       Some (JFloat (float_total (combine found (items order)))) /\
     Float.is_finite (float_total (combine found (items order))) = true).
Proof.
  intros H Hs Hlimit.
  destruct (post_orders_accepted _ _ _ _ H Hs) as (found & Hres & _ & Hr & Hw).
  assert (Hall : order_page (userId order) limit 0 w' =
                 sort_by_id order_id (orders_of (userId order) w')).
  { unfold order_page, page_of. simpl skipn. apply firstn_all2.
    rewrite sort_by_id_length. unfold count_orders in Hlimit. unfold orders_of. lia. }
  assert (Hlimit1 : 1 <= limit).
  { subst w'. unfold count_orders in Hlimit.
    cbn [orders_collection with_order looked_up] in Hlimit.
    rewrite filter_app, length_app in Hlimit.
    cbn [filter order_userId order_of_doc order_doc doc_userId] in Hlimit.
    rewrite String.eqb_refl in Hlimit. simpl List.length in Hlimit. lia. }
  assert (Hrender : totals_render (sort_by_id order_id (orders_of (userId order) w')) =
                    totals_render (orders_of (userId order) w')).
  { unfold totals_render. apply eq_true_iff_eq. rewrite !forallb_forall.
    split; intros Hin o Ho; apply Hin;
      [exact (proj2 (sort_by_id_in order_id _ _) Ho)
      |exact (proj1 (sort_by_id_in order_id _ _) Ho)]. }
  split.
  - intros Hnf Hfin. apply get_orders_200.
    split; [exact Hlimit1|]. split; [lia|]. split; [exact Hnf|].
    now rewrite Hall, Hrender.
  - intros Hget.
    destruct (proj1 (get_orders_200 _ _ _ _) Hget) as (_ & _ & _ & Hfin).
    rewrite Hall, Hrender in Hfin.
    rewrite (get_orders_data _ _ _ _ Hget), Hall.
    assert (Horders : orders_of (userId order) w' =
                      orders_of (userId order) w ++
                        [order_of_doc (next_oid w) (order_doc order found (clock w))]).
    { subst w'. unfold orders_of. cbn [orders_collection with_order looked_up].
      rewrite filter_app. cbn [filter order_userId order_of_doc order_doc doc_userId].
      now rewrite String.eqb_refl. }
    exists found, (order_of_doc (next_oid w) (order_doc order found (clock w))).
    split; [exact Hres|]. split; [exact Horders|]. split; [reflexivity|].
    split; [|split; [|split; [|split]]].
    + apply in_map, sort_by_id_in. rewrite Horders. apply in_or_app. right. now left.
    + rewrite length_map, sort_by_id_length, Horders, length_app. simpl. lia.
    + subst r. reflexivity.
    + reflexivity.
    + unfold totals_render in Hfin. rewrite forallb_forall in Hfin.
      apply (Hfin (order_of_doc (next_oid w) (order_doc order found (clock w)))).
      rewrite Horders. apply in_or_app. right. now left.
Qed.

Lemma accepted_order_is_listed_witness :
  exists o,
    data_of (fst (get_orders "u1" 10 0
                    (snd (post_orders
                            {| userId := "u1"; items := [{| productId := P1; qty := 2 |}] |}
                            tee_world)))) = [order_helper o] /\
    get "total" (order_helper o) = Some (JFloat (Float.round_int 40)).
Proof.
  assert (Hlimit : count_orders "u1"
                     (snd (post_orders
                             {| userId := "u1"; items := [{| productId := P1; qty := 2 |}] |}
                             tee_world)) <= 10) by (vm_compute; discriminate).
  destruct (accepted_order_is_listed
              {| userId := "u1"; items := [{| productId := P1; qty := 2 |}] |} 10
              tee_world _ _ (surjective_pairing _) eq_refl Hlimit)
    as [H200 Hlisted].
  assert (Hget : status (fst (get_orders "u1" 10 0
                                (snd (post_orders
                                        {| userId := "u1";
                                           items := [{| productId := P1; qty := 2 |}] |}
                                        tee_world)))) = 200).
  { apply H200; [repeat constructor|reflexivity]. }
  destruct (Hlisted Hget) as (found & o & Hres & Horders & Hdata & _ & _ & _ & Htotal & _).
  cbn [userId] in Hdata, Horders.
  exists o. rewrite Hdata, Horders. split; [reflexivity|].
  rewrite Htotal. destruct found as [|p [|p' found]]; try discriminate.
  inversion Hres; subst p. reflexivity.
Defined.

(** X14. The page before a page near the start overlaps it. For an offset
    above 0 and below [limit], the [previous] of a page answered 200 is the
    string of 0, and the page it points to, at offset 0 with the same limit,
    when answered 200 as well, is made of the [offset] documents before the
    current page, which a request for them alone is answered 200 with,
    followed by the first [limit - offset] documents of the current page
    itself: these are listed twice by a client that walks back. *)
Theorem previous_page_overlaps (pcre_i : string -> option (string -> bool))
    (qname qsize : option string) (limit offset : Z) (w : World) :
  0 < offset -> offset < limit ->
  let current := fst (get_products pcre_i qname qsize limit offset w) in
  let before := fst (get_products pcre_i qname qsize limit 0 w) in
  status current = 200 ->
  (exists page,
     get "page" (body current) = Some page /\ get "previous" page = Some (JStr "0")) /\
  (status before = 200 ->
   status (fst (get_products pcre_i qname qsize offset 0 w)) = 200 /\
   data_of before =
     data_of (fst (get_products pcre_i qname qsize offset 0 w)) ++
     firstn (Z.to_nat (limit - offset)) (data_of current)).
Proof.
  intros Ho Hl. cbv zeta. intros Hcur.
  destruct (proj1 (get_products_200 _ _ _ _ _ _) Hcur) as (_ & _ & Hnf & f & Hf & _).
  split.
  - rewrite (get_products_answer _ _ _ _ _ _ f Hf Hcur).
    unfold list_body. cbn [fst body get lookup String.eqb Ascii.eqb Bool.eqb].
    eexists. split; [reflexivity|].
    cbn [get lookup String.eqb Ascii.eqb Bool.eqb].
    assert (H0 : (0 <? offset) = true) by now apply Z.ltb_lt.
    rewrite H0. replace (Z.max 0 (offset - limit)) with 0 by lia. reflexivity.
  - intros Hbefore.
    destruct (proj1 (get_products_200 _ _ _ _ _ _) Hbefore) as (_ & _ & _ & f' & Hf' & Hr).
    rewrite Hf in Hf'. inversion Hf'; subst f'. clear Hf'.
    set (l := sort_by_id product_id (filter f (products_collection w))).
    assert (Hpages : product_page f limit 0 w =
                     product_page f offset 0 w ++
                     firstn (Z.to_nat (limit - offset)) (product_page f limit offset w)).
    { unfold product_page, page_of. fold l. simpl skipn.
      rewrite firstn_firstn.
      replace (Nat.min (Z.to_nat (limit - offset)) (Z.to_nat limit))
        with (Z.to_nat (limit - offset)) by lia.
      rewrite firstn_then_more. f_equal. lia. }
    assert (Hstart : status (fst (get_products pcre_i qname qsize offset 0 w)) = 200).
    { apply get_products_200. split; [lia|]. split; [lia|]. split; [exact Hnf|].
      exists f. split; [exact Hf|].
      rewrite Hpages in Hr. unfold prices_render in *. rewrite forallb_app in Hr.
      apply andb_true_iff in Hr. tauto. }
    split; [exact Hstart|].
    rewrite (get_products_data _ _ _ _ _ _ f Hf Hbefore),
      (get_products_data _ _ _ _ _ _ f Hf Hstart),
      (get_products_data _ _ _ _ _ _ f Hf Hcur).
    now rewrite firstn_map, <- map_app, Hpages.
Qed.

Lemma previous_page_overlaps_witness :
  data_of (fst (get_products no_engine None None 2 0 three_products_world)) =
    data_of (fst (get_products no_engine None None 1 0 three_products_world)) ++
    firstn 1 (data_of (fst (get_products no_engine None None 2 1 three_products_world))).
Proof.
  assert (H0 : 0 < 1) by lia. assert (H1 : 1 < 2) by lia.
  exact (proj2 (proj2 (previous_page_overlaps no_engine None None 2 1 three_products_world
                         H0 H1 eq_refl) eq_refl)).
Defined.
